(** * image_downloader: a shallow embedding of [downloader/download.py]

    The development follows the layout of the Python module: string
    helpers of the Python runtime, paths and the file system, the
    exception-and-effect monad the functions run in, the functions of
    the module in source order, the thread pool, and then the
    properties. *)

From Stdlib Require Import Ascii DecimalString DecimalNat.
From stdpp Require Import gmap strings list fin_maps.

(** ** Python string primitives used by the module *)

Module PyStr.

(** [c in s] for a one-character [c]. *)
Fixpoint contains (c : ascii) (s : string) : bool :=
  match s with
  | EmptyString => false
  | String d s' => if Ascii.eqb d c then true else contains c s'
  end.

(** [s.lstrip(chars)]. *)
Fixpoint lstrip (chars s : string) : string :=
  match s with
  | EmptyString => EmptyString
  | String c s' => if contains c chars then lstrip chars s' else s
  end.

(** [s.rstrip(chars)], by stripping the reversed string. *)
Definition rstrip (chars s : string) : string :=
  String.rev (lstrip chars (String.rev s)).

(** [s.strip(chars)]. *)
Definition strip (chars s : string) : string :=
  rstrip chars (lstrip chars s).

(** [s.replace(old, new)] for one-character [old] and [new]. *)
Fixpoint replace (old new : ascii) (s : string) : string :=
  match s with
  | EmptyString => EmptyString
  | String c s' =>
      String (if Ascii.eqb c old then new else c) (replace old new s')
  end.

(** [a in b] for strings: [a] occurs in [b] as a contiguous block. *)
Fixpoint substring_of (a b : string) : bool :=
  if String.prefix a b then true
  else match b with
       | EmptyString => false
       | String _ b' => substring_of a b'
       end.

(** [sep.join(ws)]. *)
Fixpoint join (sep : string) (ws : list string) : string :=
  match ws with
  | [] => ""
  | [w] => w
  | w :: ws' => w +:+ sep +:+ join sep ws'
  end.

(** [str(n)] for a non-negative integer: decimal digits, no sign. *)
Definition str_of_nat (n : nat) : string :=
  NilZero.string_of_uint (Nat.to_uint n).

(** [str(ws)] for a list of words. Python prints each element with
    [repr]; the rendering below is the one [repr] gives for words
    without quotes, backslashes or control characters, which is what
    a command-line word normally is. *)
Definition str_of_list (ws : list string) : string :=
  "[" +:+ join ", " (map (fun w => "'" +:+ w +:+ "'") ws) +:+ "]".

End PyStr.

(** ** Exceptions

    The exception classes the module names or can meet. [ConnectTimeout]
    and [ReadTimeout] are the two [requests] timeouts; the first is also
    a [requests] connection error. [Urllib3Error] stands for what the raw
    urllib3 stream raises while its body is read; it is neither a
    [requests] exception nor an [OSError]. *)

Inductive exn : Type :=
  | ConnectTimeout | ReadTimeout | HTTPError | ConnectionError
  | OtherRequestException
  | FileNotFoundError | FileExistsError | NotADirectoryError
  | IsADirectoryError | PermissionError
  | TypeError | UnboundLocalError | JSONDecodeError | KeyError
  | Urllib3Error.

Global Instance exn_eq_dec : EqDecision exn.
Proof. solve_decision. Defined.

(** [isinstance(e, requests.exceptions.Timeout)] and its siblings. *)
Definition is_Timeout (e : exn) : bool :=
  match e with ConnectTimeout | ReadTimeout => true | _ => false end.

Definition is_HTTPError (e : exn) : bool :=
  match e with HTTPError => true | _ => false end.

Definition is_ConnectionError (e : exn) : bool :=
  match e with ConnectTimeout | ConnectionError => true | _ => false end.

(** [IOError] is [OSError]; every [requests] exception derives from it. *)
Definition is_IOError (e : exn) : bool :=
  match e with
  | ConnectTimeout | ReadTimeout | HTTPError | ConnectionError
  | OtherRequestException
  | FileNotFoundError | FileExistsError | NotADirectoryError
  | IsADirectoryError | PermissionError => true
  | TypeError | UnboundLocalError | JSONDecodeError | KeyError
  | Urllib3Error => false
  end.

Inductive result (A : Type) : Type :=
  | Ok (a : A)
  | Raise (e : exn).
Arguments Ok {A} a.
Arguments Raise {A} e.

(** ** Paths

    A [pathlib] path is kept as the list of its components, innermost
    first, so that the parent of a path is the tail of the list and the
    root is the empty list. Paths are POSIX paths, and a relative path
    is read from the current directory, which is taken to be the root.
    Joining is the [/] of [PurePosixPath]: the right operand is split at
    the separator, empty and ["."] components are dropped, and an
    operand that starts with a separator is absolute and replaces the
    left path. A [".."] component is kept, as [pathlib] keeps it: it is
    the operating system that resolves it when the path is used, and
    the file system below looks paths up by their components as they
    stand; nor does it refuse a name for a NUL in it or for its length.
    What is said about the place a path leads to is therefore said of
    the [plain] paths: those made of ordinary names and short enough
    for a system call, by the limits of Linux. *)

Module Path.

Abbreviation t := (list string).

(** [s.split("/")]. *)
Fixpoint fields (s : string) : list string :=
  match s with
  | EmptyString => [""]
  | String c s' =>
      if Ascii.eqb c "/" then "" :: fields s'
      else match fields s' with
           | [] => [String c ""]
           | f :: fs => String c f :: fs
           end
  end.

Definition kept (f : string) : bool :=
  negb (String.eqb f "" || String.eqb f ".").

Definition components (s : string) : list string :=
  List.filter kept (fields s).

(** [Path(s)]. *)
Definition of_string (s : string) : t := rev (components s).

(** [s] starts with a separator. *)
Definition is_absolute (s : string) : bool :=
  match s with
  | EmptyString => false
  | String c _ => Ascii.eqb c "/"
  end.

(** [p / s]: an absolute [s] replaces [p]. *)
Definition join (p : t) (s : string) : t :=
  if is_absolute s then of_string s else of_string s ++ p.

(** [p.parent]; the root is its own parent. *)
Definition parent (p : t) : t := tail p.

(** A component that names an entry of its directory: not empty, not
    ["."] or [".."], without separator or NUL, and of at most 255
    bytes. *)
Definition ordinary (c : string) : bool :=
  negb (String.eqb c "") && negb (String.eqb c ".")
  && negb (String.eqb c "..")
  && negb (PyStr.contains "/" c) && negb (PyStr.contains "000" c)
  && (String.length c <=? 255).

(** The length of the path as a string, a separator before each
    component. *)
Definition size (p : t) : nat :=
  foldr (fun c n => S (String.length c) + n) 0 p.

(** The path leads where its components say, and the system calls take
    it: ordinary components, and at most 4095 bytes in all. *)
Definition plain (p : t) : bool :=
  forallb ordinary p && (size p <=? 4095).

End Path.

Infix "//" := Path.join (at level 40, left associativity).

(** ** The file system

    A finite map from paths to nodes: directories and regular files,
    no links. Image files hold the bytes that were written; a file
    produced by [csv.writer] holds its rows, one list of fields per
    [writerow]. The root always exists. Permissions and the space left
    on the disk are not modelled: a call fails for what is or is not at
    its path, and for nothing else. *)

Module FS.

Inductive content : Type :=
  | Bytes (b : string)
  | Rows (rows : list (list string)).

Inductive node : Type :=
  | Dir
  | File (c : content).

Abbreviation t := (gmap (list string) node).

Definition node_at (fs : t) (p : Path.t) : option node :=
  match p with
  | [] => Some Dir
  | _ :: _ => fs !! p
  end.

(** [p.exists()]. *)
Definition exists_ (fs : t) (p : Path.t) : bool :=
  match node_at fs p with Some _ => true | None => false end.

(** [p.is_dir()]. *)
Definition is_dir (fs : t) (p : Path.t) : bool :=
  match node_at fs p with Some Dir => true | _ => false end.

(** [os.mkdir(p)]: the parent is resolved first, then [p] must be new. *)
Definition os_mkdir (fs : t) (p : Path.t) : result t :=
  match p with
  | [] => Raise FileExistsError
  | _ :: parent =>
      match node_at fs parent with
      | None => Raise FileNotFoundError
      | Some (File _) => Raise NotADirectoryError
      | Some Dir =>
          match fs !! p with
          | Some _ => Raise FileExistsError
          | None => Ok (<[p := Dir]> fs)
          end
      end
  end.

(** [p.mkdir(parents=False, exist_ok=True)]. *)
Definition mkdir_exist_ok (fs : t) (p : Path.t) : result t :=
  match os_mkdir fs p with
  | Ok fs' => Ok fs'
  | Raise FileNotFoundError => Raise FileNotFoundError
  | Raise e => if is_dir fs p then Ok fs else Raise e
  end.

(** [p.mkdir(parents=True, exist_ok=True)], as [pathlib] writes it: try
    [os.mkdir]; when the parent is missing, make the parent the same
    way and retry without [parents]; any other [OSError] is forgiven
    when [p] is a directory already. *)
Fixpoint mkdir_parents (fs : t) (p : Path.t) : result t :=
  match os_mkdir fs p with
  | Ok fs' => Ok fs'
  | Raise FileNotFoundError =>
      match p with
      | [] => Raise FileNotFoundError
      | _ :: parent =>
          match mkdir_parents fs parent with
          | Ok fs' => mkdir_exist_ok fs' p
          | Raise e => Raise e
          end
      end
  | Raise e => if is_dir fs p then Ok fs else Raise e
  end.

(** [open(p, 'w')] / [open(p, 'wb')]: the parent must be a directory
    and [p] must not be one; the file is created or truncated. *)
Definition open_w (fs : t) (p : Path.t) (empty : content) : result t :=
  match p with
  | [] => Raise IsADirectoryError
  | _ :: parent =>
      match node_at fs parent with
      | None => Raise FileNotFoundError
      | Some (File _) => Raise NotADirectoryError
      | Some Dir =>
          match fs !! p with
          | Some Dir => Raise IsADirectoryError
          | _ => Ok (<[p := File empty]> fs)
          end
      end
  end.

(** What the file holds once the handle is closed. *)
Definition close_w (fs : t) (p : Path.t) (c : content) : t :=
  <[p := File c]> fs.

End FS.

(** ** The outside world

    What the network answers and what the platform provides. The search
    page is kept as what [find_all] returns for the [rg_meta] blocks,
    each block by what [json.loads] makes of its text. An image reply
    is the raw stream: the chunks it yields and the error, if any, that
    ends it early. The network of one run answers a location the same
    way each time it is asked. [order] is the order in which a pool
    completes the tasks submitted to it. *)

Inductive div : Type :=
  | BadJson
  | NonObject
  | Obj (ou ity : option string).

Inductive page : Type :=
  | PageRaise (e : exn)
  | PageOk (divs : list div).

Record stream : Type := { chunks : list string; broken : option exn }.

Inductive image_reply : Type :=
  | ImageRaise (e : exn)
  | ImageOk (raw : stream).

Record env : Type := {
  search : string -> page;
  image : string -> image_reply;
  downloads : Path.t;
  order : forall A : Type, list A -> list A
}.

(** A pool runs every submitted task once, in some order. *)
Definition fair (E : env) : Prop :=
  forall (A : Type) (l : list A), order E A l ≡ₚ l.

(** ** Effects

    A computation reads and writes the file system, issues requests and
    prints; it returns a value or raises. Requests and prints are kept
    in order as the events of the run. *)

Inductive message : Type :=
  | SearchTimedOut (e : exn)
  | SearchInvalidHTTP (e : exn)
  | FailedToSave (e : exn)
  | ImageTimedOut (e : exn)
  | ImageInvalidHTTP (e : exn)
  | ImageConnectionError (e : exn)
  | ListQueries (l : list (list string)).

Inductive event : Type :=
  | Get (url : string)
  | Print (m : message).

Definition M (A : Type) : Type := FS.t -> result A * FS.t * list event.

Definition ret {A} (a : A) : M A := fun fs => (Ok a, fs, []).

Definition raise {A} (e : exn) : M A := fun fs => (Raise e, fs, []).

Definition bind {A B} (m : M A) (k : A -> M B) : M B :=
  fun fs =>
    match m fs with
    | (Ok a, fs1, t1) =>
        match k a fs1 with
        | (r, fs2, t2) => (r, fs2, t1 ++ t2)
        end
    | (Raise e, fs1, t1) => (Raise e, fs1, t1)
    end.

Notation "'let*' x ':=' m 'in' k" := (bind m (fun x => k))
  (at level 10, x pattern, m at level 100, k at level 200).
Notation "m1 ;; m2" := (bind m1 (fun _ => m2))
  (at level 100, m2 at level 200, right associativity).

(** [try: m  except ...: h]. [h e] is the body of the first clause that
    matches [e], or [None] when no clause does. *)
Definition try_except {A} (m : M A) (h : exn -> option (M A)) : M A :=
  fun fs =>
    match m fs with
    | (Ok a, fs1, t1) => (Ok a, fs1, t1)
    | (Raise e, fs1, t1) =>
        match h e with
        | Some handler =>
            match handler fs1 with
            | (r, fs2, t2) => (r, fs2, t1 ++ t2)
            end
        | None => (Raise e, fs1, t1)
        end
    end.

Definition print (m : message) : M unit := fun fs => (Ok tt, fs, [Print m]).

Definition get_fs : M FS.t := fun fs => (Ok fs, fs, []).

(** Lift a file-system call. *)
Definition fs_call (f : FS.t -> result FS.t) : M unit :=
  fun fs =>
    match f fs with
    | Ok fs' => (Ok tt, fs', [])
    | Raise e => (Raise e, fs, [])
    end.

Definition fs_update (f : FS.t -> FS.t) : M unit :=
  fun fs => (Ok tt, f fs, []).

(** A [Future]: the task's return value or the exception it raised,
    kept inside the future. The module never calls [result()]. *)
Definition Future (A : Type) : Type := result A.

(** Run one submitted task to its end. *)
Definition in_worker {A} (m : M A) : M (Future A) :=
  fun fs => match m fs with (r, fs1, t1) => (Ok r, fs1, t1) end.

Fixpoint run_each {A B} (f : A -> M B) (tasks : list A) : M (list (Future B)) :=
  match tasks with
  | [] => ret []
  | task :: rest =>
      let* fut := in_worker (f task) in
      let* futs := run_each f rest in
      ret (fut :: futs)
  end.

(** ** The module, function by function *)

(** A query as the command line hands it over: the words of [--query]
    (a list), or one string of the list of queries. *)
Inductive pyquery : Type :=
  | QList (ws : list string)
  | QStr (s : string).

(** [str(query)]. *)
Definition str_of_query (q : pyquery) : string :=
  match q with
  | QList ws => PyStr.str_of_list ws
  | QStr s => s
  end.

(** [path_dir] (lines 30-41). *)
Definition path_dir (dir_string : string) : M string :=
  let* fs := get_fs in
  if FS.is_dir fs (Path.of_string dir_string) then ret dir_string
  else raise NotADirectoryError.

(** [create_folder] (lines 61-75). A function that falls off its end
    returns [None]. *)
Definition create_folder (output_dir : Path.t) (folder_name : string)
  : M (option Path.t) :=
  let* fs := get_fs in
  if FS.exists_ fs output_dir then
    let folder := output_dir // folder_name in
    fs_call (fun fs => FS.mkdir_parents fs folder) ;;
    ret (Some folder)
  else ret None.

(** [default_query_name] (lines 78-87). *)
Definition default_query_name (query : string) : string :=
  let query_string := PyStr.replace "+" "_" (PyStr.strip "['']" query) in
  let name :=
    if PyStr.contains " " query_string
    then PyStr.replace " " "_" query_string
    else query_string in
  name.

(** [save_urls_csv] (lines 90-106). [output_dir] arrives as the caller
    has it: [Path(None)] is a [TypeError]. The file is kept by its
    rows, not by its text: what [csv] quotes and how the rows are
    encoded is left out, and with it a write that fails on a record the
    encoding of the file cannot take. *)
Definition save_urls_csv (data : list (string * string))
    (output_dir : option string) (name : string) : M unit :=
  match output_dir with
  | None => raise TypeError
  | Some d =>
      let p := Path.of_string d in
      let filename := name +:+ "_urls.csv" in
      let* fs := get_fs in
      if FS.exists_ fs p then
        fs_call (fun fs => FS.open_w fs (p // filename) (FS.Rows [])) ;;
        let header := ["image_url"; "extension"] in
        let rows := map (fun '(u, x) => [u; x]) data in
        fs_update (fun fs => FS.close_w fs (p // filename) (FS.Rows (header :: rows)))
      else ret tt
  end.

(** The parsed command line. *)
Record inputs : Type := {
  query : option (list string);
  num_images : Z;
  list_queries : option (list (list string));
  output_dir : option string;
  folder_name : option string;
  urls_to_csv : bool;
  just_csv_no_download : bool
}.

(** [get_user_input] (lines 114-131). Of the argument types only
    [path_dir] can fail; [argparse] lets its [NotADirectoryError]
    through. *)
Definition get_user_input (argv : inputs) : M inputs :=
  match output_dir argv with
  | None => ret argv
  | Some d => let* _ := path_dir d in ret argv
  end.

(** The loop of [fetch_image_urls] (lines 169-173). *)
Fixpoint parse_results (parse_result : list div) (images : list (string * string))
  : result (list (string * string)) :=
  match parse_result with
  | [] => Ok images
  | a :: rest =>
      match a with
      | BadJson => Raise JSONDecodeError
      | NonObject => Raise TypeError
      | Obj None _ => Raise KeyError
      | Obj (Some _) None => Raise KeyError
      | Obj (Some img_url) (Some img_extension) =>
          parse_results rest (images ++ [(img_url, img_extension)])
      end
  end.

(** The widths of lines 258 and 279. *)
Definition inner_max_workers : nat := 5.
Definition outer_max_workers : nat := 5.

Section Module_.

Variable E : env.

(** [requests.get(url, ...)] on the search page, then [BeautifulSoup]. *)
Definition get_soup (url : string) : M (list div) :=
  fun fs =>
    match search E url with
    | PageOk divs => (Ok divs, fs, [Get url])
    | PageRaise e => (Raise e, fs, [Get url])
    end.

(** [requests.get(img_url, stream=True, ...)] and [res.raw]. *)
Definition get_raw (img_url : string) : M stream :=
  fun fs =>
    match image E img_url with
    | ImageOk raw => (Ok raw, fs, [Get img_url])
    | ImageRaise e => (Raise e, fs, [Get img_url])
    end.

(** [fetch_image_urls] (lines 134-175). After a caught exception the
    name [soup] was never bound. *)
Definition fetch_image_urls (url query : string) : M (list (string * string)) :=
  let* soup :=
    try_except
      (let* s := get_soup url in ret (Some s))
      (fun e =>
         if is_Timeout e then Some (print (SearchTimedOut e) ;; ret None)
         else if is_HTTPError e then Some (print (SearchInvalidHTTP e) ;; ret None)
         else None) in
  let images := [] in
  match soup with
  | None => raise UnboundLocalError
  | Some parse_result =>
      match parse_results parse_result images with
      | Ok images => ret images
      | Raise e => raise e
      end
  end.

(** [with open(path/filename, 'wb') as f: for chunck in res: f.write(chunck)].
    Leaving the [with] block closes the file, also when the stream
    breaks. *)
Definition save_stream (target : Path.t) (res : stream) : M unit :=
  fs_call (fun fs => FS.open_w fs target (FS.Bytes "")) ;;
  fs_update (fun fs => FS.close_w fs target (FS.Bytes (String.concat "" (chunks res)))) ;;
  match broken res with
  | None => ret tt
  | Some e => raise e
  end.

(** The file name of line 204. *)
Definition image_filename (idx : nat) (extension : string) : string :=
  "image_" +:+ PyStr.str_of_nat idx +:+ "." +:+ extension.

(** [download_image_from_url] (lines 179-230). *)
Definition download_image_from_url (image_tuple : string * string)
    (query : string) (idx : nat) (output_dir : option string)
    (folder_name : option string) : M unit :=
  let '(img_url, extension) := image_tuple in
  try_except
    (let* res := get_raw img_url in
     let filename := image_filename idx extension in
     let output_dir :=
       match output_dir with
       | None => downloads E
       | Some d => Path.of_string d
       end in
     let folder_name :=
       match folder_name with
       | None => default_query_name query
       | Some f => f
       end in
     let* path := create_folder output_dir folder_name in
     try_except
       (match path with
        | None => raise TypeError
        | Some path => save_stream (path // filename) res
        end)
       (fun e => if is_IOError e then Some (print (FailedToSave e)) else None))
    (fun e =>
       if is_Timeout e then Some (print (ImageTimedOut e))
       else if is_HTTPError e then Some (print (ImageInvalidHTTP e))
       else if is_ConnectionError e then Some (print (ImageConnectionError e))
       else None).

(** [with ThreadPoolExecutor(max_workers=...) as executor]: every task
    of [tasks] is submitted, the pool runs each one once and keeps its
    outcome in its future; [as_completed] hands the futures back and
    the loop body drops them. Tasks are taken as atomic here, in the
    order the environment completes them; the width bounds how many run
    at once (see [Executor]) and not which ones run. *)
Definition pool {A B} (max_workers : nat) (f : A -> M B) (tasks : list A)
  : M (list (Future B)) :=
  run_each f (order E A tasks).

(** [enumerate(images)]. *)
Definition enumerate {A} (l : list A) : list (nat * A) :=
  zip (seq 0 (length l)) l.

(** [download_images_single_query_async] (lines 234-265). *)
Definition download_images_single_query_async (query : pyquery)
    (output_dir folder_name : option string)
    (just_csv_no_download urls_to_csv : bool) : M unit :=
  let query := PyStr.replace " " "+" (str_of_query query) in
  let url := "https://www.google.co.in/search?q=" +:+ query +:+ "&source=lnms&tbm=isch" in
  let* images := fetch_image_urls url query in
  let csv_filename := default_query_name query in
  (if negb just_csv_no_download then
     let* _ := pool inner_max_workers (fun '(idx, image) =>
                       download_image_from_url image query idx output_dir folder_name)
                    (enumerate images) in
     ret tt
   else ret tt) ;;
  if urls_to_csv || just_csv_no_download then
    save_urls_csv images output_dir csv_filename
  else ret tt.

(** [download_list_queries] (lines 268-282). *)
Definition download_list_queries (list_queries : list string)
    (output_dir folder_name : option string)
    (just_csv_no_download urls_to_csv : bool) : M unit :=
  let* _ := pool outer_max_workers (fun query =>
                    download_images_single_query_async (QStr query) output_dir
                      folder_name just_csv_no_download urls_to_csv)
                 list_queries in
  ret tt.

(** The lambda of line 306: the words of one query that are not a
    piece of the punctuation string, joined by spaces. *)
Definition join_words (query : list string) : string :=
  PyStr.join " "
    (List.filter (fun c => negb (PyStr.substring_of c "[''],")) query).

(** The script body (lines 287-307). *)
Definition main (argv : inputs) : M unit :=
  let* inputs := get_user_input argv in
  (match query inputs with
   | Some ((_ :: _) as q) =>
       download_images_single_query_async (QList q) (output_dir inputs)
         (folder_name inputs) (just_csv_no_download inputs) (urls_to_csv inputs)
   | _ => ret tt
   end) ;;
  match list_queries inputs with
  | Some ((_ :: _) as lq) =>
      print (ListQueries lq) ;;
      let list_queries := map join_words lq in
      download_list_queries list_queries (output_dir inputs) (folder_name inputs)
        (just_csv_no_download inputs) (urls_to_csv inputs)
  | _ => ret tt
  end.

End Module_.

(** ** The thread pool as a transition system

    [concurrent.futures.ThreadPoolExecutor]: [submit] queues the work
    item and may start a new thread, which it does only while fewer than
    [max_workers] exist; it starts none when a thread is idle or the
    pool is full. A thread takes the item at the head of the queue, runs
    it to its end, success or exception alike, and goes back to the
    queue. *)

Module Executor.

Record state (T : Type) : Type := {
  to_submit : list T;
  work_queue : list T;
  threads : list (option T);
  completed : list T
}.
Arguments to_submit {T} s.
Arguments work_queue {T} s.
Arguments threads {T} s.
Arguments completed {T} s.

Definition start {T} (tasks : list T) : state T :=
  {| to_submit := tasks; work_queue := []; threads := []; completed := [] |}.

Definition idle {T} (w : option T) : bool :=
  match w with None => true | Some _ => false end.

(** The work items that threads are running. *)
Definition running {T} (ths : list (option T)) : list T := omap id ths.

Definition in_flight {T} (s : state T) : nat := length (running (threads s)).

Inductive step {T} (max_workers : nat) : state T -> state T -> Prop :=
  | step_submit_spawn task rest q ths d :
      length ths < max_workers ->
      step max_workers
        {| to_submit := task :: rest; work_queue := q; threads := ths; completed := d |}
        {| to_submit := rest; work_queue := q ++ [task];
           threads := ths ++ [None]; completed := d |}
  | step_submit_queue task rest q ths d :
      existsb idle ths = true \/ max_workers <= length ths ->
      step max_workers
        {| to_submit := task :: rest; work_queue := q; threads := ths; completed := d |}
        {| to_submit := rest; work_queue := q ++ [task];
           threads := ths; completed := d |}
  | step_take i task rest q ths d :
      ths !! i = Some None ->
      step max_workers
        {| to_submit := rest; work_queue := task :: q; threads := ths; completed := d |}
        {| to_submit := rest; work_queue := q;
           threads := <[i := Some task]> ths; completed := d |}
  | step_finish i task rest q ths d :
      ths !! i = Some (Some task) ->
      step max_workers
        {| to_submit := rest; work_queue := q; threads := ths; completed := d |}
        {| to_submit := rest; work_queue := q;
           threads := <[i := None]> ths; completed := d ++ [task] |}.

Definition reachable {T} (max_workers : nat) (tasks : list T) (s : state T) : Prop :=
  rtc (step max_workers) (start tasks) s.



End Executor.

(** ** What a run shows *)

(** The URLs requested, in order. *)
Definition requests (t : list event) : list string :=
  omap (fun ev => match ev with Get url => Some url | Print _ => None end) t.

(** The messages printed, in order. *)
Definition printed (t : list event) : list message :=
  omap (fun ev => match ev with Print m => Some m | Get _ => None end) t.

(** The search URL of line 247 and the query string it carries. *)
Definition plus_query (q : pyquery) : string :=
  PyStr.replace " " "+" (str_of_query q).

Definition search_url (q : pyquery) : string :=
  "https://www.google.co.in/search?q=" +:+ plus_query q +:+ "&source=lnms&tbm=isch".

(** The base directory and the folder a task resolves (lines 207-208). *)
Definition base_dir (E : env) (output_dir : option string) : Path.t :=
  match output_dir with
  | None => downloads E
  | Some d => Path.of_string d
  end.

Definition folder_of (query : string) (folder_name : option string) : string :=
  match folder_name with
  | None => default_query_name query
  | Some f => f
  end.

(** The destination of the task with index [idx]. *)
Definition destination (E : env) (query : string) (idx : nat) (extension : string)
    (output_dir folder_name : option string) : Path.t :=
  base_dir E output_dir // folder_of query folder_name // image_filename idx extension.

(** The clause of the outer [try] of [download_image_from_url] that
    takes [e], by the message it prints. *)
Definition image_clause (e : exn) : option message :=
  if is_Timeout e then Some (ImageTimedOut e)
  else if is_HTTPError e then Some (ImageInvalidHTTP e)
  else if is_ConnectionError e then Some (ImageConnectionError e)
  else None.

(** How a task that raised [e] inside the outer [try] ends. *)
Definition after_image_clauses (e : exn) (fs : FS.t) (t : list event)
  : result unit * FS.t * list event :=
  match image_clause e with
  | Some m => (Ok tt, fs, t ++ [Print m])
  | None => (Raise e, fs, t)
  end.

(** The same for the inner [try], whose one clause takes [IOError]. *)
Definition after_save_clause (e : exn) (fs : FS.t) (t : list event)
  : result unit * FS.t * list event :=
  if is_IOError e then (Ok tt, fs, t ++ [Print (FailedToSave e)])
  else after_image_clauses e fs t.

(** How a task can end: silently and well, with one message and well,
    or with an exception that no clause takes and no message. *)
Definition task_ending (r : result unit) (t : list event) (url : string) : Prop :=
  (r = Ok tt /\ t = [Get url])
  \/ (exists m, r = Ok tt /\ t = [Get url; Print m])
  \/ (exists e, r = Raise e /\ t = [Get url] /\ image_clause e = None).

(** Every node of a well-formed file system sits in a directory. *)
Definition wf (fs : FS.t) : Prop :=
  forall p c x, fs !! (c :: p) = Some x -> FS.is_dir fs p = true.

(** The paths from [base] down to [p], both included. *)
Definition between (base p q : Path.t) : Prop :=
  base `suffix_of` q /\ q `suffix_of` p.

(** [fs1] is [fs] with some directories added on the way down to [p]
    and nothing else changed. *)
Definition new_dirs (p : Path.t) (fs fs1 : FS.t) : Prop :=
  forall q, fs1 !! q = fs !! q
            \/ (fs !! q = None /\ fs1 !! q = Some FS.Dir /\ q `suffix_of` p).

(** The command line with another [--num_images]. *)
Definition with_num_images (n : Z) (argv : inputs) : inputs :=
  {| query := query argv;
     num_images := n;
     list_queries := list_queries argv;
     output_dir := output_dir argv;
     folder_name := folder_name argv;
     urls_to_csv := urls_to_csv argv;
     just_csv_no_download := just_csv_no_download argv |}.

(** The CSV file of a query (line 100) and what [save_urls_csv] writes
    into it. *)
Definition csv_name (q : pyquery) : string :=
  default_query_name (plus_query q) +:+ "_urls.csv".

Definition csv_rows (images : list (string * string)) : list (list string) :=
  ["image_url"; "extension"] :: map (fun '(u, x) => [u; x]) images.


(** The words that [repr] prints as they are, between single quotes:
    printable ASCII without quote or backslash. For these
    [PyStr.str_of_list] is what [str] gives. *)
Definition plain_char (c : ascii) : bool :=
  (32 <=? nat_of_ascii c) && (nat_of_ascii c <? 127)
  && negb (Ascii.eqb c "'") && negb (Ascii.eqb c "092").

Fixpoint plain_word (w : string) : bool :=
  match w with
  | EmptyString => true
  | String c w' => plain_char c && plain_word w'
  end.

(** The page blocks that carry the records [images], one block per
    record, each with both keys. *)
Definition blocks_of (images : list (string * string)) : list div :=
  map (fun '(u, x) => Obj (Some u) (Some x)) images.

(** The folder of a batch can be made below an existing base. *)
Definition ready (base folder : Path.t) (fs : FS.t) : Prop :=
  FS.exists_ fs base = true /\ exists fs1, FS.mkdir_parents fs folder = Ok fs1.

(** The paths of a batch are plain: its base, its folder and the
    destination of every record. *)
Definition plain_batch (E : env) (images : list (string * string))
    (query : string) (output_dir folder_name : option string) : Prop :=
  Path.plain (base_dir E output_dir) = true
  /\ Path.plain (base_dir E output_dir // folder_of query folder_name) = true
  /\ forall i url ext,
       images !! i = Some (url, ext) ->
       Path.plain (destination E query i ext output_dir folder_name) = true.

(** ** A worked scenario

    The query [dog] with two records; the first image arrives whole,
    the request for the second times out. The disk holds [/tmp/out]. *)

Module Scenario.

Definition world : env := {|
  search := fun url =>
    if String.eqb url "https://www.google.co.in/search?q=dog&source=lnms&tbm=isch"
    then PageOk [Obj (Some "urlA") (Some "jpg"); Obj (Some "urlB") (Some "png")]
    else if String.eqb url "https://www.google.co.in/search?q=cat&source=lnms&tbm=isch"
    then PageOk [Obj (Some "urlC") (Some "gif"); BadJson]
    else PageRaise ReadTimeout;
  image := fun url =>
    if String.eqb url "urlA" then ImageOk {| chunks := ["ab"; "cd"]; broken := None |}
    else ImageRaise ConnectTimeout;
  downloads := ["Downloads"; "home"];
  order := fun A l => l
|}.

Definition disk : FS.t :=
  <[["out"; "tmp"] := FS.Dir]> (<[["tmp"] := FS.Dir]> ∅).

Definition argv : inputs := {|
  query := None;
  num_images := 100;
  list_queries := Some [["dog"]; ["cat"]];
  output_dir := Some "/tmp/out";
  folder_name := None;
  urls_to_csv := false;
  just_csv_no_download := false
|}.

End Scenario.

(** A second scenario: the page of [dog] lists the same location
    twice; the stream of [urlA] breaks after its first chunk, the one
    of [urlD] arrives whole. On this disk [/tmp/report] is a regular
    file. *)

Module Scenario2.

Definition world : env := {|
  search := fun url =>
    if String.eqb url "https://www.google.co.in/search?q=dog&source=lnms&tbm=isch"
    then PageOk [Obj (Some "urlD") (Some "jpg"); Obj (Some "urlD") (Some "jpg")]
    else PageOk [];
  image := fun url =>
    if String.eqb url "urlA"
    then ImageOk {| chunks := ["ab"]; broken := Some Urllib3Error |}
    else if String.eqb url "urlD"
    then ImageOk {| chunks := ["xy"; "z"]; broken := None |}
    else ImageRaise ConnectionError;
  downloads := ["Downloads"; "home"];
  order := fun A l => rev l
|}.

Definition disk : FS.t :=
  <[["report"; "tmp"] := FS.File (FS.Bytes "old")]>
    (<[["out"; "tmp"] := FS.Dir]> (<[["tmp"] := FS.Dir]> ∅)).

End Scenario2.

(** * Properties *)

(** ** Strings *)

#[local] Arguments String.append !s1 s2 : simpl nomatch.

Section StringFacts.

Lemma append_assoc (a b c : string) : (a +:+ b) +:+ c = a +:+ (b +:+ c).
Proof. induction a as [|x a IH]; simpl; [done|]. by rewrite IH. Qed.

Lemma append_empty_r (a : string) : a +:+ "" = a.
Proof. induction a as [|x a IH]; simpl; [done|]. by rewrite IH. Qed.

Lemma replace_absent old new s :
  PyStr.contains old s = false -> PyStr.replace old new s = s.
Proof.
  induction s as [|c s IH]; simpl; [done|].
  destruct (Ascii.eqb c old); [done|].
  intros H. by rewrite IH.
Qed.

Lemma contains_replace_old old new s :
  old <> new -> PyStr.contains old (PyStr.replace old new s) = false.
Proof.
  intros Hne. induction s as [|c s IH]; simpl; [done|].
  destruct (Ascii.eqb_spec c old) as [->|Hc].
  - destruct (Ascii.eqb_spec new old); [by subst|]. exact IH.
  - destruct (Ascii.eqb_spec c old); [done|]. exact IH.
Qed.

Lemma contains_replace_other a old new s :
  a <> new -> PyStr.contains a s = false ->
  PyStr.contains a (PyStr.replace old new s) = false.
Proof.
  intros Hne. induction s as [|c s IH]; simpl; [done|].
  destruct (Ascii.eqb_spec c a) as [->|Hc]; [done|].
  intros H. destruct (Ascii.eqb c old).
  - destruct (Ascii.eqb_spec new a); [by subst|]. by apply IH.
  - destruct (Ascii.eqb_spec c a); [done|]. by apply IH.
Qed.

Lemma lstrip_head chars s c s' :
  PyStr.lstrip chars s = String c s' -> PyStr.contains c chars = false.
Proof.
  induction s as [|d s IH]; simpl; [done|].
  destruct (PyStr.contains d chars) eqn:Hd; [exact IH|].
  intros [= <- _]. exact Hd.
Qed.

Lemma rev_app_spec s acc :
  String.rev_app s acc = String.rev_app s "" +:+ acc.
Proof.
  revert acc. induction s as [|c s IH]; intros acc; simpl; [done|].
  rewrite IH, (IH (String c "")).
  by rewrite append_assoc.
Qed.

Lemma string_rev_snoc s c :
  String.rev (s +:+ String c "") = String c (String.rev s).
Proof.
  unfold String.rev. generalize "" at 2 3 as acc.
  induction s as [|d s IH]; intros acc; simpl; [done|]. apply IH.
Qed.

Lemma string_rev_involutive s : String.rev (String.rev s) = s.
Proof.
  induction s as [|c s IH]; [done|].
  unfold String.rev at 2. simpl. rewrite rev_app_spec.
  fold (String.rev s). by rewrite string_rev_snoc, IH.
Qed.

Lemma rstrip_last chars s s' c :
  PyStr.rstrip chars s = s' +:+ String c "" -> PyStr.contains c chars = false.
Proof.
  unfold PyStr.rstrip. intros H.
  apply (f_equal String.rev) in H.
  rewrite string_rev_involutive, string_rev_snoc in H.
  by apply lstrip_head in H.
Qed.

Lemma lstrip_suffix chars s :
  exists pre, s = pre +:+ PyStr.lstrip chars s.
Proof.
  induction s as [|c s [pre IH]]; simpl; [by exists ""|].
  destruct (PyStr.contains c chars).
  - exists (String c pre). simpl. by rewrite <- IH.
  - by exists "".
Qed.

Lemma string_rev_append a b : String.rev (a +:+ b) = String.rev b +:+ String.rev a.
Proof.
  induction a as [|x a IH]; simpl.
  - by rewrite append_empty_r.
  - unfold String.rev at 1 3. simpl.
    rewrite (rev_app_spec (a +:+ b)), (rev_app_spec a).
    fold (String.rev (a +:+ b)) (String.rev a).
    by rewrite IH, append_assoc.
Qed.

Lemma rstrip_prefix chars s :
  exists suf, s = PyStr.rstrip chars s +:+ suf.
Proof.
  unfold PyStr.rstrip.
  destruct (lstrip_suffix chars (String.rev s)) as [pre H].
  exists (String.rev pre).
  rewrite <- string_rev_append, <- H. by rewrite string_rev_involutive.
Qed.

Lemma strip_head chars s c s' :
  PyStr.strip chars s = String c s' -> PyStr.contains c chars = false.
Proof.
  unfold PyStr.strip. intros H.
  destruct (rstrip_prefix chars (PyStr.lstrip chars s)) as [suf Hs].
  rewrite H in Hs. simpl in Hs. by apply lstrip_head in Hs.
Qed.

Lemma strip_last chars s s' c :
  PyStr.strip chars s = s' +:+ String c "" -> PyStr.contains c chars = false.
Proof. unfold PyStr.strip. apply rstrip_last. Qed.

Lemma replace_head old new x c s :
  PyStr.replace old new x = String c s ->
  exists d x', x = String d x' /\ c = if Ascii.eqb d old then new else d.
Proof. destruct x as [|d x']; simpl; [done|]. intros [= <- _]. eauto. Qed.

Lemma replace_last old new x s c :
  PyStr.replace old new x = s +:+ String c "" ->
  exists y d, x = y +:+ String d "" /\ c = if Ascii.eqb d old then new else d.
Proof.
  revert s. induction x as [|a x IH]; intros s; simpl.
  - by destruct s.
  - destruct s as [|b s]; simpl.
    + intros [= <- Hx]. destruct x; [|done]. by exists "", a.
    + intros [= _ Hx]. destruct (IH _ Hx) as (y & d & -> & ->).
      by exists (String a y), d.
Qed.

End StringFacts.

(** ** Query normalization *)

Lemma default_query_name_unfold q :
  default_query_name q
  = PyStr.replace " " "_" (PyStr.replace "+" "_" (PyStr.strip "['']" q)).
Proof.
  unfold default_query_name.
  destruct (PyStr.contains " " _) eqn:H; [done|].
  by rewrite (replace_absent " ").
Qed.

Lemma underscore_kept (d : ascii) :
  PyStr.contains d "['']" = false ->
  PyStr.contains
    (if Ascii.eqb (if Ascii.eqb d "+" then "_"%char else d) " "
     then "_"%char else if Ascii.eqb d "+" then "_"%char else d) "['']" = false.
Proof.
  intros H. destruct (Ascii.eqb d "+"); [done|].
  by destruct (Ascii.eqb d " ").
Qed.

(** C3, as the code has it: the surrounding bracket and quote characters
    are stripped and every ['+'] and every space becomes one ['_'], so a
    run of three spaces gives three underscores. *)
Theorem query_normalization :
  (forall q, default_query_name q
             = PyStr.replace " " "_" (PyStr.replace "+" "_" (PyStr.strip "['']" q)))
  /\ (forall q, PyStr.contains "+" (default_query_name q) = false
                /\ PyStr.contains " " (default_query_name q) = false)
  /\ (forall q c s, default_query_name q = String c s ->
                    PyStr.contains c "['']" = false)
  /\ (forall q s c, default_query_name q = s +:+ String c "" ->
                    PyStr.contains c "['']" = false)
  /\ default_query_name "red   bear" = "red___bear"
  /\ default_query_name (plus_query (QStr "red   bear")) = "red___bear"
  /\ default_query_name "red bear" = "red_bear"
  /\ default_query_name "cat+dog" = "cat_dog"
  /\ map join_words [["dog"]; ["horse"]] = ["dog"; "horse"]
  /\ map (fun q => default_query_name (plus_query (QStr q))) ["dog"; "horse"]
     = ["dog"; "horse"].
Proof.
  split; [exact default_query_name_unfold|].
  split.
  { intros q. rewrite default_query_name_unfold. split.
    - apply contains_replace_other; [done|]. by apply contains_replace_old.
    - by apply contains_replace_old. }
  split.
  { intros q c s. rewrite default_query_name_unfold. intros H.
    apply replace_head in H as (d & x & H & ->).
    apply replace_head in H as (d' & x' & H & ->).
    apply strip_head in H. by apply underscore_kept. }
  split.
  { intros q s c. rewrite default_query_name_unfold. intros H.
    apply replace_last in H as (y & d & H & ->).
    apply replace_last in H as (y' & d' & H & ->).
    apply strip_last in H. by apply underscore_kept. }
  repeat split; reflexivity.
Qed.

(** C3 as the specification words it fails: ["red   bear"] does not
    become [red_bear], neither directly nor on the way the list of
    queries takes. *)
Lemma query_normalization_counterexample :
  default_query_name "red   bear" <> "red_bear"
  /\ default_query_name (plus_query (QStr "red   bear")) <> "red_bear".
Proof. split; discriminate. Qed.

(** ** File names and destinations *)

Section Naming.

Lemma digits_dot_inj d1 d2 r1 r2 :
  NilEmpty.string_of_uint d1 +:+ String "." r1
  = NilEmpty.string_of_uint d2 +:+ String "." r2 ->
  d1 = d2.
Proof.
  revert d2. induction d1 as [|d1 IH|d1 IH|d1 IH|d1 IH|d1 IH|d1 IH|d1 IH|d1 IH|d1 IH|d1 IH];
    intros [] H; simpl in H; try discriminate; try reflexivity;
    injection H as H; f_equal; by apply IH.
Qed.

Lemma to_uint_nonnil n : Nat.to_uint n <> Decimal.Nil.
Proof.
  rewrite <- (DecimalNat.Unsigned.of_to n), DecimalNat.Unsigned.to_of.
  apply DecimalFacts.unorm_nonnil.
Qed.

Lemma str_of_nat_digits n :
  PyStr.str_of_nat n = NilEmpty.string_of_uint (Nat.to_uint n).
Proof.
  unfold PyStr.str_of_nat, NilZero.string_of_uint.
  pose proof (to_uint_nonnil n). by destruct (Nat.to_uint n).
Qed.

Lemma image_filename_inj i j e1 e2 :
  image_filename i e1 = image_filename j e2 -> i = j.
Proof.
  unfold image_filename. rewrite !str_of_nat_digits. simpl.
  intros [= H]. apply digits_dot_inj in H.
  by apply DecimalNat.Unsigned.to_uint_inj.
Qed.

Lemma contains_append c a b :
  PyStr.contains c (a +:+ b) = PyStr.contains c a || PyStr.contains c b.
Proof.
  induction a as [|x a IH]; simpl; [done|].
  by destruct (Ascii.eqb x c).
Qed.

Lemma digits_no_separator d :
  PyStr.contains "/" (NilEmpty.string_of_uint d) = false.
Proof. induction d; simpl; done. Qed.

Lemma fields_nonempty s : Path.fields s <> [].
Proof.
  destruct s as [|c s]; simpl; [done|].
  destruct (Ascii.eqb c "/"); [done|]. by destruct (Path.fields s).
Qed.

Lemma fields_append a s :
  PyStr.contains "/" a = false ->
  exists f fs, Path.fields s = f :: fs /\ Path.fields (a +:+ s) = (a +:+ f) :: fs.
Proof.
  induction a as [|x a IH]; simpl.
  - intros _. pose proof (fields_nonempty s).
    destruct (Path.fields s) as [|f fs]; [done|]. by exists f, fs.
  - destruct (Ascii.eqb x "/"); [done|].
    intros H. destruct (IH H) as (f & fs & Hs & ->). by exists f, fs.
Qed.

(** The first component of a file name still carries the index. *)
Lemma filename_components i e :
  exists f rest, Path.components (image_filename i e) = image_filename i f :: rest.
Proof.
  unfold image_filename.
  destruct (fields_append ("image_" +:+ PyStr.str_of_nat i +:+ ".") e)
    as (f & fs & _ & H).
  { rewrite !contains_append, str_of_nat_digits, digits_no_separator. done. }
  rewrite !append_assoc in H.
  exists f, (List.filter Path.kept fs).
  unfold Path.components. rewrite H. simpl. done.
Qed.

Lemma of_string_filename_inj i j e1 e2 :
  Path.of_string (image_filename i e1) = Path.of_string (image_filename j e2) ->
  i = j.
Proof.
  unfold Path.of_string. intros H. apply (f_equal (@rev string)) in H.
  rewrite !rev_involutive in H.
  destruct (filename_components i e1) as (f1 & r1 & H1).
  destruct (filename_components j e2) as (f2 & r2 & H2).
  rewrite H1, H2 in H. apply (image_filename_inj i j f1 f2). congruence.
Qed.

Lemma join_relative (p : Path.t) (s : string) :
  Path.is_absolute s = false -> p // s = Path.of_string s ++ p.
Proof. unfold Path.join. by intros ->. Qed.

Lemma join_absolute (p : Path.t) (s : string) :
  Path.is_absolute s = true -> p // s = Path.of_string s.
Proof. unfold Path.join. by intros ->. Qed.

(** A file name is never absolute: it goes below the folder. *)
Lemma join_filename (p : Path.t) i e :
  p // image_filename i e = Path.of_string (image_filename i e) ++ p.
Proof. by apply join_relative. Qed.

Lemma destination_inj E query i j e1 e2 output_dir folder_name :
  destination E query i e1 output_dir folder_name
  = destination E query j e2 output_dir folder_name ->
  i = j.
Proof.
  unfold destination. rewrite !join_filename. intros H.
  apply app_inv_tail in H. by apply of_string_filename_inj in H.
Qed.

Lemma enumerate_fst {A} (l : list A) : (enumerate l).*1 = seq 0 (length l).
Proof. unfold enumerate. apply fst_zip. by rewrite length_seq. Qed.

Lemma enumerate_snd {A} (l : list A) : (enumerate l).*2 = l.
Proof. unfold enumerate. apply snd_zip. by rewrite length_seq. Qed.

Lemma enumerate_lookup {A} (l : list A) i x :
  enumerate l !! i = Some (i, x) <-> l !! i = Some x.
Proof.
  unfold enumerate. rewrite lookup_zip_with_Some. split.
  - intros (a & b & [= <- <-] & _ & H). done.
  - intros H. exists i, x. split; [done|]. split; [|done].
    apply lookup_seq. split; [done|]. by eapply lookup_lt_Some.
Qed.

Lemma elem_of_enumerate {A} (l : list A) i x :
  (i, x) ∈ enumerate l <-> l !! i = Some x.
Proof.
  rewrite list_elem_of_lookup. split.
  - intros [k Hk]. unfold enumerate in Hk.
    apply lookup_zip_with_Some in Hk as (a & b & [= <- <-] & Ha & Hb).
    apply lookup_seq in Ha as [-> _]. done.
  - intros H. exists i. by apply enumerate_lookup.
Qed.

End Naming.

(** ** The file system *)

Section FSFacts.

Implicit Types (fs : FS.t) (p q : Path.t).

Lemma is_dir_true fs p :
  FS.is_dir fs p = true <-> FS.node_at fs p = Some FS.Dir.
Proof. unfold FS.is_dir. destruct (FS.node_at fs p) as [[]|]; naive_solver. Qed.

Lemma is_dir_exists fs p : FS.is_dir fs p = true -> FS.exists_ fs p = true.
Proof. unfold FS.is_dir, FS.exists_. by destruct (FS.node_at fs p). Qed.

Lemma os_mkdir_Ok fs p fs1 :
  FS.os_mkdir fs p = Ok fs1 ->
  exists c parent, p = c :: parent /\ FS.node_at fs parent = Some FS.Dir
                   /\ fs !! p = None /\ fs1 = <[p := FS.Dir]> fs.
Proof.
  destruct p as [|c parent]; simpl; [done|].
  destruct (FS.node_at fs parent) as [[]|] eqn:Hpar; try done.
  destruct (fs !! (c :: parent)) eqn:Hp; try done.
  intros [= <-]. by exists c, parent.
Qed.

Lemma os_mkdir_Raise fs p e :
  FS.os_mkdir fs p = Raise e ->
  e = FileExistsError \/ e = FileNotFoundError \/ e = NotADirectoryError.
Proof.
  destruct p as [|c parent]; simpl; [naive_solver|].
  destruct (FS.node_at fs parent) as [[]|]; [|naive_solver..].
  destruct (fs !! (c :: parent)); naive_solver.
Qed.

Lemma os_mkdir_not_found fs p :
  FS.os_mkdir fs p = Raise FileNotFoundError ->
  exists c parent, p = c :: parent /\ FS.node_at fs parent = None.
Proof.
  destruct p as [|c parent]; simpl; [done|].
  destruct (FS.node_at fs parent) as [[]|] eqn:Hpar; [| |by eauto].
  - by destruct (fs !! (c :: parent)).
  - done.
Qed.

Lemma mkdir_exist_ok_unfold fs p :
  FS.mkdir_exist_ok fs p =
  match FS.os_mkdir fs p with
  | Ok fs' => Ok fs'
  | Raise e =>
      if decide (e = FileNotFoundError) then Raise e
      else if FS.is_dir fs p then Ok fs else Raise e
  end.
Proof. unfold FS.mkdir_exist_ok. destruct (FS.os_mkdir fs p) as [|[]]; done. Qed.

Lemma mkdir_parents_unfold fs p :
  FS.mkdir_parents fs p =
  match FS.os_mkdir fs p with
  | Ok fs' => Ok fs'
  | Raise e =>
      if decide (e = FileNotFoundError) then
        match p with
        | [] => Raise e
        | _ :: parent =>
            match FS.mkdir_parents fs parent with
            | Ok fs' => FS.mkdir_exist_ok fs' p
            | Raise e' => Raise e'
            end
        end
      else if FS.is_dir fs p then Ok fs else Raise e
  end.
Proof.
  destruct p as [|c parent]; [done|].
  cbn [FS.mkdir_parents]. destruct (FS.os_mkdir fs (c :: parent)) as [|[]]; done.
Qed.

Lemma new_dirs_refl p fs : new_dirs p fs fs.
Proof. intros q. by left. Qed.

Lemma new_dirs_weaken p p' fs fs1 :
  p `suffix_of` p' -> new_dirs p fs fs1 -> new_dirs p' fs fs1.
Proof.
  intros Hp H q. destruct (H q) as [E|(E1 & E2 & E3)]; [by left|].
  right. split; [done|]. split; [done|]. by etrans.
Qed.

Lemma new_dirs_trans p fs1 fs2 fs3 :
  new_dirs p fs1 fs2 -> new_dirs p fs2 fs3 -> new_dirs p fs1 fs3.
Proof.
  intros H12 H23 q.
  destruct (H12 q) as [E1|(E1 & E1' & S1)], (H23 q) as [E2|(E2 & E2' & S2)].
  - left. congruence.
  - right. split; [congruence|done].
  - right. split; [done|]. split; [congruence|done].
  - congruence.
Qed.

Lemma new_dirs_insert fs p :
  fs !! p = None -> new_dirs p fs (<[p := FS.Dir]> fs).
Proof.
  intros Hp q. destruct (decide (p = q)) as [<-|Hne].
  - right. by rewrite lookup_insert_eq.
  - left. by rewrite lookup_insert_ne.
Qed.

Lemma new_dirs_node_at p fs fs1 q x :
  new_dirs p fs fs1 -> FS.node_at fs q = Some x -> FS.node_at fs1 q = Some x.
Proof.
  intros H. destruct q as [|c q]; [done|]. simpl.
  destruct (H (c :: q)) as [->|[-> _]]; done.
Qed.

Lemma new_dirs_is_dir p fs fs1 q :
  new_dirs p fs fs1 -> FS.is_dir fs q = true -> FS.is_dir fs1 q = true.
Proof. rewrite !is_dir_true. apply new_dirs_node_at. Qed.

Lemma new_dirs_exists p fs fs1 q :
  new_dirs p fs fs1 -> FS.exists_ fs q = true -> FS.exists_ fs1 q = true.
Proof.
  intros H. unfold FS.exists_.
  destruct (FS.node_at fs q) as [x|] eqn:Hq; [|done].
  by rewrite (new_dirs_node_at _ _ _ _ _ H Hq).
Qed.

(** Files are never touched by adding directories. *)
Lemma new_dirs_file p fs fs1 q c :
  new_dirs p fs fs1 -> fs1 !! q = Some (FS.File c) -> fs !! q = Some (FS.File c).
Proof. intros H Hq. destruct (H q) as [<-|(_ & E & _)]; congruence. Qed.

(** Nothing changes off the way down to [p]. *)
Lemma new_dirs_off_path p fs fs1 q :
  new_dirs p fs fs1 -> ~ q `suffix_of` p -> fs1 !! q = fs !! q.
Proof. intros H Hq. by destruct (H q) as [E|(_ & _ & S)]. Qed.

Lemma os_mkdir_post fs p fs1 :
  FS.os_mkdir fs p = Ok fs1 ->
  FS.is_dir fs1 p = true /\ new_dirs p fs fs1 /\ FS.is_dir fs1 (Path.parent p) = true.
Proof.
  intros (c & parent & -> & Hpar & Hp & ->)%os_mkdir_Ok.
  pose proof (new_dirs_insert fs _ Hp) as Hnew.
  split; [|split; [done|]].
  - apply is_dir_true. simpl. by rewrite lookup_insert_eq.
  - simpl. apply (new_dirs_is_dir _ fs _ _ Hnew). by apply is_dir_true.
Qed.

Lemma mkdir_exist_ok_post fs p fs1 :
  FS.mkdir_exist_ok fs p = Ok fs1 ->
  FS.is_dir fs1 p = true /\ new_dirs p fs fs1
  /\ (fs1 = fs \/ FS.is_dir fs1 (Path.parent p) = true).
Proof.
  rewrite mkdir_exist_ok_unfold.
  destruct (FS.os_mkdir fs p) as [fs'|e] eqn:Hos.
  - intros [= <-]. apply os_mkdir_post in Hos as (? & ? & ?). auto.
  - case_decide; [done|]. destruct (FS.is_dir fs p) eqn:Hd; [|done].
    intros [= <-]. split; [done|]. split; [apply new_dirs_refl|by left].
Qed.

Lemma mkdir_parents_post p : forall fs fs1,
  FS.mkdir_parents fs p = Ok fs1 ->
  FS.is_dir fs1 p = true /\ new_dirs p fs fs1
  /\ (fs1 = fs \/ FS.is_dir fs1 (Path.parent p) = true).
Proof.
  induction p as [|c parent IH]; intros fs fs1; rewrite mkdir_parents_unfold.
  - simpl. intros [= <-]. split; [done|]. split; [apply new_dirs_refl|by left].
  - destruct (FS.os_mkdir fs (c :: parent)) as [fs'|e] eqn:Hos.
    + intros [= <-]. apply os_mkdir_post in Hos as (? & ? & ?). auto.
    + case_decide.
      * destruct (FS.mkdir_parents fs parent) as [fs'|e'] eqn:Hrec; [|done].
        intros Hleaf. apply IH in Hrec as (Hd & Hnew & _).
        apply mkdir_exist_ok_post in Hleaf as (Hd' & Hnew' & _).
        split; [done|]. split.
        { eapply new_dirs_trans; [|done].
          eapply new_dirs_weaken; [|done]. by apply suffix_cons_r. }
        right. simpl. by eapply new_dirs_is_dir.
      * destruct (FS.is_dir fs (c :: parent)) eqn:Hd; [|done].
        intros [= <-]. split; [done|]. split; [apply new_dirs_refl|by left].
Qed.

(** Making a directory that the same call has just made changes nothing
    and raises nothing. *)
Lemma mkdir_parents_again fs p fs1 :
  FS.mkdir_parents fs p = Ok fs1 -> FS.mkdir_parents fs1 p = Ok fs1.
Proof.
  intros H. destruct (mkdir_parents_post _ _ _ H) as (Hd & _ & [->|Hpar]); [done|].
  rewrite mkdir_parents_unfold.
  destruct p as [|c parent]; [done|].
  apply is_dir_true in Hd, Hpar. simpl in Hd, Hpar.
  cbn [FS.os_mkdir]. rewrite Hpar, Hd.
  case_decide; [done|].
  assert (FS.is_dir fs1 (c :: parent) = true) as -> by by apply is_dir_true.
  done.
Qed.

(** *** Well-formed file systems *)

Lemma wf_suffixes fs p q :
  wf fs -> FS.is_dir fs p = true -> q `suffix_of` p -> FS.is_dir fs q = true.
Proof.
  intros Hwf. induction p as [|c p IH]; intros Hd [k Hk].
  - destruct k, q; try done.
  - destruct k as [|c' k]; simplify_eq/=; [done|].
    apply IH; [|by exists k].
    apply is_dir_true in Hd. simpl in Hd. by eapply Hwf.
Qed.

Lemma wf_insert_dir fs c p :
  wf fs -> FS.is_dir fs p = true -> fs !! (c :: p) = None ->
  wf (<[c :: p := FS.Dir]> fs).
Proof.
  intros Hwf Hd Hp q c' x Hq.
  pose proof (new_dirs_insert fs _ Hp) as Hnew.
  apply (new_dirs_is_dir _ _ _ _ Hnew).
  destruct (decide (c :: p = c' :: q)) as [[= <- <-]|Hne]; [done|].
  rewrite lookup_insert_ne in Hq by done. by eapply Hwf.
Qed.

Lemma os_mkdir_wf fs p fs1 : wf fs -> FS.os_mkdir fs p = Ok fs1 -> wf fs1.
Proof.
  intros Hwf (c & parent & -> & Hpar & Hp & ->)%os_mkdir_Ok.
  apply wf_insert_dir; [done| |done]. by apply is_dir_true.
Qed.

Lemma mkdir_exist_ok_wf fs p fs1 :
  wf fs -> FS.mkdir_exist_ok fs p = Ok fs1 -> wf fs1.
Proof.
  intros Hwf. rewrite mkdir_exist_ok_unfold.
  destruct (FS.os_mkdir fs p) as [fs'|e] eqn:Hos.
  - intros [= <-]. by eapply os_mkdir_wf.
  - case_decide; [done|]. destruct (FS.is_dir fs p); [|done]. by intros [= <-].
Qed.

Lemma mkdir_parents_wf p : forall fs fs1,
  wf fs -> FS.mkdir_parents fs p = Ok fs1 -> wf fs1.
Proof.
  induction p as [|c parent IH]; intros fs fs1 Hwf; rewrite mkdir_parents_unfold.
  - simpl. by intros [= <-].
  - destruct (FS.os_mkdir fs (c :: parent)) as [fs'|e] eqn:Hos.
    + intros [= <-]. by eapply os_mkdir_wf.
    + case_decide.
      * destruct (FS.mkdir_parents fs parent) as [fs'|e'] eqn:Hrec; [|done].
        intros Hleaf. eapply mkdir_exist_ok_wf; [|done]. by eapply IH.
      * destruct (FS.is_dir fs (c :: parent)); [|done]. by intros [= <-].
Qed.

(** A directory that is there already is left alone. *)
Lemma mkdir_parents_existing fs p :
  wf fs -> FS.is_dir fs p = true -> FS.mkdir_parents fs p = Ok fs.
Proof.
  intros Hwf Hd. rewrite mkdir_parents_unfold.
  destruct p as [|c parent]; [done|].
  pose proof Hd as Hp. apply is_dir_true in Hp. simpl in Hp.
  pose proof (Hwf _ _ _ Hp) as Hpar. apply is_dir_true in Hpar.
  cbn [FS.os_mkdir]. rewrite Hpar, Hp. case_decide; [done|]. by rewrite Hd.
Qed.

(** Below an existing directory, with no file in the way, the whole
    chain of directories gets made. *)
Lemma mkdir_parents_total ext : forall fs base,
  wf fs -> FS.is_dir fs base = true ->
  (forall q c, between base (ext ++ base) q -> FS.node_at fs q <> Some (FS.File c)) ->
  exists fs1, FS.mkdir_parents fs (ext ++ base) = Ok fs1.
Proof.
  induction ext as [|c ext IH]; intros fs base Hwf Hbase Hfiles.
  - exists fs. by apply mkdir_parents_existing.
  - rewrite mkdir_parents_unfold. simpl.
    destruct (FS.node_at fs (ext ++ base)) as [[|f]|] eqn:Hpar.
    + destruct (fs !! (c :: ext ++ base)) as [[|f]|] eqn:Hp.
      * case_decide; [done|].
        assert (FS.is_dir fs (c :: ext ++ base) = true) as ->
          by by apply is_dir_true.
        by eexists.
      * exfalso. apply (Hfiles (c :: ext ++ base) f); [|done].
        split; [|done]. by apply (suffix_app_r _ _ (c :: ext)).
      * by eexists.
    + exfalso. apply (Hfiles (ext ++ base) f); [|done].
      split; [by apply suffix_app_r|by apply suffix_cons_r].
    + case_decide; [|done].
      destruct (IH fs base Hwf Hbase) as [fs' Hrec].
      { intros q f [Hq1 Hq2]. apply Hfiles. split; [done|]. by apply suffix_cons_r. }
      rewrite Hrec.
      destruct (mkdir_parents_post _ _ _ Hrec) as (Hd & Hnew & _).
      rewrite mkdir_exist_ok_unfold. cbn [FS.os_mkdir].
      apply is_dir_true in Hd. rewrite Hd.
      assert (fs !! (c :: ext ++ base) = None) as Hnone.
      { destruct (fs !! (c :: ext ++ base)) eqn:Hp; [|done].
        apply Hwf, is_dir_true in Hp. congruence. }
      destruct (Hnew (c :: ext ++ base)) as [E|(_ & E & S)].
      * rewrite E, Hnone. by eexists.
      * rewrite E. case_decide; [done|].
        assert (FS.is_dir fs' (c :: ext ++ base) = true) as ->
          by by apply is_dir_true.
        by eexists.
Qed.

(** What a lookup off the way down to [p] sees does not matter to [mkdir]. *)
Lemma os_mkdir_frame fs p q x :
  ~ q `suffix_of` p -> q <> [] ->
  FS.os_mkdir (<[q := x]> fs) p =
  match FS.os_mkdir fs p with
  | Ok fs' => Ok (<[q := x]> fs')
  | Raise e => Raise e
  end.
Proof.
  intros Hq Hne. destruct p as [|c parent]; [done|]. cbn [FS.os_mkdir].
  assert (FS.node_at (<[q := x]> fs) parent = FS.node_at fs parent) as ->.
  { destruct parent as [|c' parent]; [done|]. simpl.
    apply lookup_insert_ne. intros ->. apply Hq. by apply suffix_cons_r. }
  rewrite lookup_insert_ne by (by intros ->).
  destruct (FS.node_at fs parent) as [[]|]; try done.
  destruct (fs !! (c :: parent)); [done|].
  f_equal. apply insert_insert_ne. intros <-. by apply Hq.
Qed.

Lemma is_dir_frame fs p q x :
  q <> p -> FS.is_dir (<[q := x]> fs) p = FS.is_dir fs p.
Proof.
  intros Hne. unfold FS.is_dir. destruct p as [|c p]; [done|]. simpl.
  by rewrite lookup_insert_ne.
Qed.

Lemma mkdir_exist_ok_frame fs p q x :
  ~ q `suffix_of` p -> q <> [] ->
  FS.mkdir_exist_ok (<[q := x]> fs) p =
  match FS.mkdir_exist_ok fs p with
  | Ok fs' => Ok (<[q := x]> fs')
  | Raise e => Raise e
  end.
Proof.
  intros Hq Hne. rewrite !mkdir_exist_ok_unfold, os_mkdir_frame by done.
  destruct (FS.os_mkdir fs p) as [fs'|e]; [done|].
  case_decide; [done|]. rewrite is_dir_frame by (by intros ->).
  by destruct (FS.is_dir fs p).
Qed.

Lemma mkdir_parents_frame p : forall fs q x,
  ~ q `suffix_of` p -> q <> [] ->
  FS.mkdir_parents (<[q := x]> fs) p =
  match FS.mkdir_parents fs p with
  | Ok fs' => Ok (<[q := x]> fs')
  | Raise e => Raise e
  end.
Proof.
  induction p as [|c parent IH]; intros fs q x Hq Hne.
  - done.
  - rewrite !(mkdir_parents_unfold _ (c :: parent)), os_mkdir_frame by done.
    destruct (FS.os_mkdir fs (c :: parent)) as [fs'|e]; [done|].
    case_decide.
    + rewrite IH; [|intros ?; apply Hq; by apply suffix_cons_r|done].
      destruct (FS.mkdir_parents fs parent) as [fs'|e']; [|done].
      by apply mkdir_exist_ok_frame.
    + rewrite is_dir_frame by (by intros ->).
      by destruct (FS.is_dir fs (c :: parent)).
Qed.

End FSFacts.

(** ** Placement: [create_folder] *)

Section Placement.

Lemma create_folder_run (output_dir : Path.t) (folder_name : string) (fs : FS.t) :
  create_folder output_dir folder_name fs =
  if FS.exists_ fs output_dir then
    match FS.mkdir_parents fs (output_dir // folder_name) with
    | Ok fs1 => (Ok (Some (output_dir // folder_name)), fs1, [])
    | Raise e => (Raise e, fs, [])
    end
  else (Ok None, fs, []).
Proof.
  unfold create_folder, bind, get_fs, fs_call, ret.
  destruct (FS.exists_ fs output_dir); [|done].
  by destruct (FS.mkdir_parents fs (output_dir // folder_name)).
Qed.

Lemma join_suffix (base : Path.t) s :
  Path.is_absolute s = false -> base `suffix_of` base // s.
Proof. intros H. rewrite join_relative by done. by apply suffix_app_r. Qed.

(** Joining, on examples: a relative name goes below the base, an
    absolute one replaces it, and [".."] is kept. *)
Example join_examples :
  Path.of_string "/tmp/out" // "dog" = ["dog"; "out"; "tmp"]
  /\ Path.of_string "/tmp/out" // "/tmp/elsewhere" = ["elsewhere"; "tmp"]
  /\ Path.of_string "/tmp/out" // "a/./b//c" = ["c"; "b"; "a"; "out"; "tmp"]
  /\ Path.of_string "/tmp/out" // "" = ["out"; "tmp"]
  /\ Path.of_string "/tmp/out" // "../sib" = ["sib"; ".."; "out"; "tmp"]
  /\ Path.plain (Path.of_string "/tmp/out" // "../sib") = false.
Proof. repeat split. Qed.

(** An absolute folder name below a regular file: the folder cannot be
    made, wherever the base is. *)
Example create_folder_below_file :
  create_folder ["out"; "tmp"] "/tmp/report/x" Scenario2.disk
  = (Raise NotADirectoryError, Scenario2.disk, []).
Proof. reflexivity. Qed.

Lemma wf_empty : wf ∅.
Proof. intros p c x H. by rewrite lookup_empty in H. Qed.

Lemma wf_scenario_disk : wf Scenario.disk.
Proof.
  unfold Scenario.disk.
  apply wf_insert_dir; [|by vm_compute|by vm_compute].
  apply wf_insert_dir; [apply wf_empty|by vm_compute|by vm_compute].
Qed.

(** With no file in the way the whole chain down to [p] gets made. *)
Lemma mkdir_parents_from_root (fs : FS.t) (p : Path.t) :
  wf fs ->
  (forall q c, q `suffix_of` p -> FS.node_at fs q <> Some (FS.File c)) ->
  exists fs1, FS.mkdir_parents fs p = Ok fs1.
Proof.
  intros Hwf Hfiles.
  destruct (mkdir_parents_total p fs [] Hwf) as [fs1 Hmk]; [done| |].
  - intros q c [_ Hq]. apply Hfiles. by rewrite app_nil_r in Hq.
  - exists fs1. by rewrite app_nil_r in Hmk.
Qed.

(** C5: a second call of the resolver with the same arguments returns
    the same path, raises nothing and changes nothing. For a plain base
    and a plain folder: a folder that is a directory already is not
    an error and is left as it is; and when no regular file stands on
    the way down to the folder, the folder and all its missing parents
    get made, and nothing else is changed. The folder is
    [output_dir / folder_name] as [pathlib] joins them, so an absolute
    folder name is made where it says, the base only having to exist. *)
Theorem create_folder_idempotent (output_dir : Path.t) (folder_name : string)
    (fs : FS.t) :
  (forall r fs1 t1,
      create_folder output_dir folder_name fs = (Ok r, fs1, t1) ->
      create_folder output_dir folder_name fs1 = (Ok r, fs1, []))
  /\ (wf fs ->
      Path.plain output_dir = true ->
      Path.plain (output_dir // folder_name) = true ->
      FS.exists_ fs output_dir = true ->
      FS.is_dir fs (output_dir // folder_name) = true ->
      create_folder output_dir folder_name fs
      = (Ok (Some (output_dir // folder_name)), fs, []))
  /\ (wf fs ->
      Path.plain output_dir = true ->
      Path.plain (output_dir // folder_name) = true ->
      FS.exists_ fs output_dir = true ->
      (forall q c, q `suffix_of` output_dir // folder_name ->
                   FS.node_at fs q <> Some (FS.File c)) ->
      exists fs1,
        create_folder output_dir folder_name fs
        = (Ok (Some (output_dir // folder_name)), fs1, [])
        /\ wf fs1
        /\ (forall q, q `suffix_of` output_dir // folder_name ->
                      FS.is_dir fs1 q = true)
        /\ new_dirs (output_dir // folder_name) fs fs1).
Proof.
  split; [|split].
  - intros r fs1 t1. rewrite !create_folder_run.
    destruct (FS.exists_ fs output_dir) eqn:Hex.
    + destruct (FS.mkdir_parents fs _) as [fs'|e] eqn:Hmk; [|done].
      intros [= <- <- <-].
      destruct (mkdir_parents_post _ _ _ Hmk) as (_ & Hnew & _).
      rewrite (new_dirs_exists _ _ _ _ Hnew Hex).
      by rewrite (mkdir_parents_again _ _ _ Hmk).
    + intros [= <- <- <-]. by rewrite Hex.
  - intros Hwf _ _ Hex Hd. rewrite create_folder_run, Hex.
    by rewrite mkdir_parents_existing.
  - intros Hwf _ _ Hex Hfiles. rewrite create_folder_run, Hex.
    destruct (mkdir_parents_from_root fs _ Hwf Hfiles) as [fs1 Hmk].
    rewrite Hmk. exists fs1. split; [done|].
    pose proof (mkdir_parents_wf _ _ _ Hwf Hmk) as Hwf1.
    destruct (mkdir_parents_post _ _ _ Hmk) as (Hd1 & Hnew & _).
    split; [done|]. split; [|done]. intros q Hq. by eapply wf_suffixes.
Qed.

Lemma create_folder_idempotent_witness :
  (exists fs1,
     create_folder ["out"; "tmp"] "dog/big" Scenario.disk
     = (Ok (Some ["big"; "dog"; "out"; "tmp"]), fs1, [])
     /\ create_folder ["out"; "tmp"] "dog/big" fs1
        = (Ok (Some ["big"; "dog"; "out"; "tmp"]), fs1, [])
     /\ FS.is_dir fs1 ["dog"; "out"; "tmp"] = true)
  /\ (exists fs1,
        create_folder ["out"; "tmp"] "/srv/dog" Scenario.disk
        = (Ok (Some ["dog"; "srv"]), fs1, [])
        /\ FS.is_dir fs1 ["srv"] = true).
Proof.
  split.
  - destruct (create_folder_idempotent ["out"; "tmp"] "dog/big" Scenario.disk)
      as (Hagain & _ & Hmake).
    destruct Hmake as (fs1 & Hrun & _ & Hdirs & _).
    + exact wf_scenario_disk.
    + reflexivity.
    + reflexivity.
    + reflexivity.
    + intros q c [k Hk]. change (["out"; "tmp"] // "dog/big")
        with ["big"; "dog"; "out"; "tmp"] in Hk.
      destruct k as [|k1 [|k2 [|k3 [|k4 [|k5 k]]]]]; simplify_eq/=; by vm_compute.
    + exists fs1. split; [exact Hrun|]. split; [exact (Hagain _ _ _ Hrun)|].
      apply Hdirs. by exists ["big"].
  - destruct (create_folder_idempotent ["out"; "tmp"] "/srv/dog" Scenario.disk)
      as (_ & _ & Hmake).
    destruct Hmake as (fs1 & Hrun & _ & Hdirs & _).
    + exact wf_scenario_disk.
    + reflexivity.
    + reflexivity.
    + reflexivity.
    + intros q c [k Hk]. change (["out"; "tmp"] // "/srv/dog")
        with ["dog"; "srv"] in Hk.
      destruct k as [|k1 [|k2 [|k3 k]]]; simplify_eq/=; by vm_compute.
    + exists fs1. split; [exact Hrun|]. apply Hdirs. by exists ["dog"].
Defined.

End Placement.

(** ** One task: [download_image_from_url] *)

Section Task.

Variable E : env.

Lemma download_run (url ext query : string) (idx : nat)
    (output_dir folder_name : option string) (fs : FS.t) :
  download_image_from_url E (url, ext) query idx output_dir folder_name fs =
  let folder := base_dir E output_dir // folder_of query folder_name in
  let dest := destination E query idx ext output_dir folder_name in
  match image E url with
  | ImageRaise e => after_image_clauses e fs [Get url]
  | ImageOk raw =>
      if FS.exists_ fs (base_dir E output_dir) then
        match FS.mkdir_parents fs folder with
        | Raise e => after_image_clauses e fs [Get url]
        | Ok fs1 =>
            match FS.open_w fs1 dest (FS.Bytes "") with
            | Raise e => after_save_clause e fs1 [Get url]
            | Ok fs2 =>
                let fs3 :=
                  FS.close_w fs2 dest (FS.Bytes (String.concat "" (chunks raw))) in
                match broken raw with
                | None => (Ok tt, fs3, [Get url])
                | Some e => after_save_clause e fs3 [Get url]
                end
            end
        end
      else (Raise TypeError, fs, [Get url])
  end.
Proof.
  unfold download_image_from_url, destination, base_dir, folder_of.
  unfold try_except at 1. unfold bind at 1. unfold get_raw.
  destruct (image E url) as [e|raw].
  { unfold after_image_clauses, image_clause, print.
    destruct (is_Timeout e); [done|]. destruct (is_HTTPError e); [done|].
    by destruct (is_ConnectionError e). }
  unfold bind at 1. rewrite create_folder_run.
  set (base := match output_dir with Some d => Path.of_string d | None => downloads E end).
  set (folder := match folder_name with Some f => f | None => default_query_name query end).
  destruct (FS.exists_ fs base); [|done].
  destruct (FS.mkdir_parents fs (base // folder)) as [fs1|e].
  2:{ unfold after_image_clauses, image_clause, print.
      destruct (is_Timeout e); [done|]. destruct (is_HTTPError e); [done|].
      by destruct (is_ConnectionError e). }
  unfold try_except, save_stream, bind, fs_call, fs_update, raise, ret.
  destruct (FS.open_w fs1 _ _) as [fs2|e].
  2:{ unfold after_save_clause, after_image_clauses, image_clause, print.
      destruct (is_IOError e); [done|].
      destruct (is_Timeout e); [done|]. destruct (is_HTTPError e); [done|].
      by destruct (is_ConnectionError e). }
  destruct (broken raw) as [e|]; [|done].
  unfold after_save_clause, after_image_clauses, image_clause, print.
  destruct (is_IOError e); [done|].
  destruct (is_Timeout e); [done|]. destruct (is_HTTPError e); [done|].
  by destruct (is_ConnectionError e).
Qed.

Lemma after_image_clauses_inv (e : exn) (fs : FS.t) t r fs' t' :
  after_image_clauses e fs t = (r, fs', t') ->
  fs' = fs /\ requests t' = requests t
  /\ (r = Raise e /\ t' = t /\ image_clause e = None
      \/ exists m, r = Ok tt /\ t' = t ++ [Print m] /\ image_clause e = Some m).
Proof.
  unfold after_image_clauses. destruct (image_clause e) as [m|].
  - intros [= <- <- <-]. split; [done|]. split.
    + unfold requests. by rewrite omap_app, app_nil_r.
    + right. by exists m.
  - intros [= <- <- <-]. split; [done|]. split; [done|]. by left.
Qed.

Lemma after_save_clause_inv (e : exn) (fs : FS.t) t r fs' t' :
  after_save_clause e fs t = (r, fs', t') ->
  fs' = fs /\ requests t' = requests t.
Proof.
  unfold after_save_clause. destruct (is_IOError e).
  - intros [= <- <- <-]. split; [done|].
    unfold requests. by rewrite omap_app, app_nil_r.
  - intros H. apply after_image_clauses_inv in H. tauto.
Qed.

Lemma open_w_Ok (fs : FS.t) (p : Path.t) (c : FS.content) (fs' : FS.t) :
  FS.open_w fs p c = Ok fs' ->
  fs !! p <> Some FS.Dir /\ p <> [] /\ fs' = <[p := FS.File c]> fs.
Proof.
  destruct p as [|x parent]; [done|]. simpl.
  destruct (FS.node_at fs parent) as [[]|]; try done.
  destruct (fs !! (x :: parent)) as [[]|]; try done; by intros [= <-].
Qed.

(** Each task issues exactly one request, for its own URL. *)
Lemma task_requests (url ext query : string) (idx : nat)
    (output_dir folder_name : option string) (fs : FS.t) r fs' t :
  download_image_from_url E (url, ext) query idx output_dir folder_name fs
  = (r, fs', t) ->
  requests t = [url].
Proof.
  rewrite download_run. cbv zeta.
  destruct (image E url) as [e|raw].
  { intros H. apply after_image_clauses_inv in H. by destruct H as (_ & -> & _). }
  destruct (FS.exists_ fs _); [|by intros [= <- <- <-]].
  destruct (FS.mkdir_parents fs _) as [fs1|e].
  2:{ intros H. apply after_image_clauses_inv in H. by destruct H as (_ & -> & _). }
  destruct (FS.open_w fs1 _ _) as [fs2|e].
  2:{ intros H. apply after_save_clause_inv in H. by destruct H as (_ & ->). }
  destruct (broken raw) as [e|]; [|by intros [= <- <- <-]].
  intros H. apply after_save_clause_inv in H. by destruct H as (_ & ->).
Qed.

(** What a task does to the file system: directories on the way down
    to its folder, and at most one file, at its destination. *)
Lemma task_shape (url ext query : string) (idx : nat)
    (output_dir folder_name : option string) (fs : FS.t) r fs' t :
  download_image_from_url E (url, ext) query idx output_dir folder_name fs
  = (r, fs', t) ->
  fs' = fs
  \/ exists fs1,
      FS.mkdir_parents fs (base_dir E output_dir // folder_of query folder_name)
      = Ok fs1
      /\ (fs' = fs1
          \/ exists c,
              fs1 !! destination E query idx ext output_dir folder_name
              <> Some FS.Dir
              /\ fs' = <[destination E query idx ext output_dir folder_name
                         := FS.File (FS.Bytes c)]> fs1).
Proof.
  rewrite download_run. cbv zeta.
  destruct (image E url) as [e|raw].
  { intros H. apply after_image_clauses_inv in H. left. by destruct H as (-> & _). }
  destruct (FS.exists_ fs _); [|intros [= <- <- <-]; by left].
  destruct (FS.mkdir_parents fs _) as [fs1|e] eqn:Hmk.
  2:{ intros H. apply after_image_clauses_inv in H. left. by destruct H as (-> & _). }
  intros H. right. exists fs1. split; [done|]. revert H.
  destruct (FS.open_w fs1 _ _) as [fs2|e] eqn:Hopen.
  2:{ intros H. apply after_save_clause_inv in H. left. by destruct H as (-> & _). }
  apply open_w_Ok in Hopen as (Hnd & _ & ->).
  unfold FS.close_w. rewrite insert_insert_eq.
  intros H. right. exists (String.concat "" (chunks raw)). split; [done|].
  revert H. destruct (broken raw) as [e|]; [|by intros [= <- <- <-]].
  intros H. apply after_save_clause_inv in H. by destruct H as (-> & _).
Qed.

(** A request that raises one of the three exceptions the task names
    is reported and ends the task there, the disk as it was. *)
Lemma task_request_reported (url ext query : string) (idx : nat)
    (output_dir folder_name : option string) (fs : FS.t) (e : exn) (m : message) :
  image E url = ImageRaise e ->
  image_clause e = Some m ->
  download_image_from_url E (url, ext) query idx output_dir folder_name fs
  = (Ok tt, fs, [Get url; Print m]).
Proof.
  intros Himg Hm. rewrite download_run. cbv zeta. rewrite Himg.
  unfold after_image_clauses. by rewrite Hm.
Qed.

(** A file that cannot be opened is reported and ends the task. *)
Lemma task_write_reported (url ext query : string) (idx : nat)
    (output_dir folder_name : option string) (fs fs1 : FS.t) (raw : stream)
    (e : exn) :
  image E url = ImageOk raw ->
  FS.exists_ fs (base_dir E output_dir) = true ->
  FS.mkdir_parents fs (base_dir E output_dir // folder_of query folder_name)
  = Ok fs1 ->
  FS.open_w fs1 (destination E query idx ext output_dir folder_name) (FS.Bytes "")
  = Raise e ->
  download_image_from_url E (url, ext) query idx output_dir folder_name fs
  = (Ok tt, fs1, [Get url; Print (FailedToSave e)]).
Proof.
  intros Himg Hex Hmk Hopen. rewrite download_run. cbv zeta.
  rewrite Himg, Hex, Hmk, Hopen. unfold after_save_clause.
  assert (is_IOError e = true) as ->; [|done].
  revert Hopen. generalize (destination E query idx ext output_dir folder_name).
  intros [|c p]; simpl; [by intros [= <-]|].
  destruct (FS.node_at fs1 p) as [[]|]; try by intros [= <-].
  destruct (fs1 !! (c :: p)) as [[]|]; try done; by intros [= <-].
Qed.

Lemma fields_no_separator s :
  PyStr.contains "/" s = false -> Path.fields s = [s].
Proof.
  induction s as [|c s IH]; simpl; [done|].
  destruct (Ascii.eqb c "/"); [done|]. intros H. by rewrite IH.
Qed.

(** A file name without a separator is one component. *)
Lemma of_string_filename idx ext :
  PyStr.contains "/" ext = false ->
  Path.of_string (image_filename idx ext) = [image_filename idx ext].
Proof.
  intros H. unfold Path.of_string, Path.components.
  rewrite fields_no_separator.
  - done.
  - unfold image_filename.
    by rewrite !contains_append, str_of_nat_digits, digits_no_separator, H.
Qed.

Lemma destination_off_folder (query : string) (idx : nat) (ext : string)
    (output_dir folder_name : option string) :
  ~ destination E query idx ext output_dir folder_name
    `suffix_of` base_dir E output_dir // folder_of query folder_name.
Proof.
  unfold destination. rewrite join_filename. intros H%suffix_length.
  rewrite length_app in H.
  destruct (filename_components idx ext) as (f & rest & Hc).
  unfold Path.of_string in H. rewrite Hc, length_rev in H. simpl in H. lia.
Qed.

Lemma destination_single (query : string) (idx : nat) (ext : string)
    (output_dir folder_name : option string) :
  PyStr.contains "/" ext = false ->
  destination E query idx ext output_dir folder_name
  = image_filename idx ext
    :: (base_dir E output_dir // folder_of query folder_name).
Proof.
  intros H. unfold destination. rewrite join_filename.
  by rewrite of_string_filename.
Qed.

Lemma open_w_in_dir (fs : FS.t) (folder : Path.t) (name : string)
    (c : FS.content) :
  FS.is_dir fs folder = true ->
  fs !! (name :: folder) <> Some FS.Dir ->
  FS.open_w fs (name :: folder) c = Ok (<[name :: folder := FS.File c]> fs).
Proof.
  intros Hd%is_dir_true Hnd. simpl. rewrite Hd.
  by destruct (fs !! (name :: folder)) as [[]|].
Qed.

(** When the folder can be made and nothing stands in the way, the
    bytes of the stream end up at the destination. *)
Lemma task_writes (url ext query : string) (idx : nat)
    (output_dir folder_name : option string) (fs fs1 : FS.t) raw :
  image E url = ImageOk raw ->
  FS.exists_ fs (base_dir E output_dir) = true ->
  FS.mkdir_parents fs (base_dir E output_dir // folder_of query folder_name)
  = Ok fs1 ->
  PyStr.contains "/" ext = false ->
  fs !! destination E query idx ext output_dir folder_name <> Some FS.Dir ->
  exists r t,
    download_image_from_url E (url, ext) query idx output_dir folder_name fs
    = (r, <[destination E query idx ext output_dir folder_name
            := FS.File (FS.Bytes (String.concat "" (chunks raw)))]> fs1, t)
    /\ (broken raw = None -> r = Ok tt /\ t = [Get url]).
Proof.
  intros Himg Hex Hmk Hext Hnd.
  rewrite download_run. cbv zeta. rewrite Himg, Hex, Hmk.
  destruct (mkdir_parents_post _ _ _ Hmk) as (Hd & Hnew & _).
  pose proof (destination_off_folder query idx ext output_dir folder_name) as Hoff.
  rewrite <- (new_dirs_off_path _ _ _ _ Hnew Hoff) in Hnd.
  assert (FS.open_w fs1 (destination E query idx ext output_dir folder_name)
            (FS.Bytes "")
          = Ok (<[destination E query idx ext output_dir folder_name
                  := FS.File (FS.Bytes "")]> fs1)) as ->.
  { revert Hnd. rewrite destination_single by done. by apply open_w_in_dir. }
  unfold FS.close_w. rewrite insert_insert_eq.
  destruct (broken raw) as [e|].
  - destruct (after_save_clause e _ [Get url]) as [[r fs'] t] eqn:Hafter.
    pose proof (after_save_clause_inv _ _ _ _ _ _ Hafter) as (-> & _).
    by exists r, t.
  - by exists (Ok tt), [Get url].
Qed.

End Task.

(** ** A base directory that is not there *)

(** C10: when the base directory does not exist the resolver makes
    nothing and returns [None], whatever the folder name; the task that
    got that far then ends in a [TypeError], which no [except] clause
    of the task takes: nothing is printed and nothing is written. *)
Theorem missing_base_dir (E : env) (base : Path.t) (folder : string) (fs : FS.t) :
  FS.exists_ fs base = false ->
  create_folder base folder fs = (Ok None, fs, [])
  /\ (forall url ext query idx output_dir folder_name raw,
        base_dir E output_dir = base ->
        image E url = ImageOk raw ->
        download_image_from_url E (url, ext) query idx output_dir folder_name fs
        = (Raise TypeError, fs, [Get url]))
  /\ is_IOError TypeError = false
  /\ image_clause TypeError = None.
Proof.
  intros Hex. split.
  - by rewrite create_folder_run, Hex.
  - split; [|done].
    intros url ext query idx output_dir folder_name raw Hbase Himg.
    rewrite download_run. cbv zeta. by rewrite Himg, Hbase, Hex.
Qed.

Lemma missing_base_dir_witness :
  create_folder ["nowhere"] "dog" Scenario.disk = (Ok None, Scenario.disk, [])
  /\ download_image_from_url Scenario.world ("urlA", "jpg") "dog" 0
       (Some "/nowhere") None Scenario.disk
     = (Raise TypeError, Scenario.disk, [Get "urlA"]).
Proof.
  destruct (missing_base_dir Scenario.world ["nowhere"] "dog" Scenario.disk)
    as (Hnone & Htask & _).
  - reflexivity.
  - split; [exact Hnone|].
    by apply (Htask "urlA" "jpg" "dog" 0 (Some "/nowhere") None
                {| chunks := ["ab"; "cd"]; broken := None |}).
Defined.

(** ** Extraction: [fetch_image_urls] *)

Section Extraction.

Variable E : env.

Lemma fetch_run (url query : string) (fs : FS.t) :
  fetch_image_urls E url query fs =
  match search E url with
  | PageRaise e =>
      if is_Timeout e then
        (Raise UnboundLocalError, fs, [Get url; Print (SearchTimedOut e)])
      else if is_HTTPError e then
        (Raise UnboundLocalError, fs, [Get url; Print (SearchInvalidHTTP e)])
      else (Raise e, fs, [Get url])
  | PageOk divs =>
      match parse_results divs [] with
      | Ok images => (Ok images, fs, [Get url])
      | Raise e => (Raise e, fs, [Get url])
      end
  end.
Proof.
  unfold fetch_image_urls, bind, try_except, get_soup, print, ret, raise.
  destruct (search E url) as [e|divs].
  - destruct (is_Timeout e); [done|]. by destruct (is_HTTPError e).
  - by destruct (parse_results divs []).
Qed.

(** Extraction never touches the disk and asks for the search page
    only; whether it fails does not depend on the disk. *)
Lemma fetch_inv (url query : string) (fs : FS.t) r fs1 t1 :
  fetch_image_urls E url query fs = (r, fs1, t1) ->
  fs1 = fs /\ requests t1 = [url]
  /\ forall fs2 : FS.t, fetch_image_urls E url query fs2 = (r, fs2, t1).
Proof.
  rewrite fetch_run. intros H.
  assert (forall fs2 : FS.t, fetch_image_urls E url query fs2 = (r, fs2, t1)
          /\ fs1 = fs /\ requests t1 = [url]) as Hall.
  { intros fs2. rewrite fetch_run. revert H.
    destruct (search E url) as [e|divs].
    - destruct (is_Timeout e); [by intros [= <- <- <-]|].
      destruct (is_HTTPError e); by intros [= <- <- <-].
    - destruct (parse_results divs []); by intros [= <- <- <-]. }
  destruct (Hall fs) as (_ & ? & ?). split; [done|]. split; [done|].
  intros fs2. apply Hall.
Qed.


End Extraction.

(** ** Batches: the pool *)

Section Batch.

Lemma requests_app t1 t2 : requests (t1 ++ t2) = requests t1 ++ requests t2.
Proof. unfold requests. apply omap_app. Qed.

Lemma printed_app t1 t2 : printed (t1 ++ t2) = printed t1 ++ printed t2.
Proof. unfold printed. apply omap_app. Qed.

Lemma run_each_cons {A B} (f : A -> M B) (a : A) (l : list A) (fs : FS.t) :
  run_each f (a :: l) fs =
  match f a fs with
  | (r, fs1, t1) =>
      match run_each f l fs1 with
      | (Ok futs, fs2, t2) => (Ok (r :: futs), fs2, t1 ++ t2)
      | (Raise e, fs2, t2) => (Raise e, fs2, t1 ++ t2)
      end
  end.
Proof.
  cbn [run_each]. unfold bind, in_worker, ret.
  destruct (f a fs) as [[r fs1] t1].
  destruct (run_each f l fs1) as [[[futs|e] fs2] t2]; [|done].
  by rewrite app_nil_r.
Qed.

(** The pool never raises and hands back one future per task. *)
Lemma run_each_total {A B} (f : A -> M B) (l : list A) : forall fs : FS.t,
  exists futs fs' t,
    run_each f l fs = (Ok futs, fs', t) /\ length futs = length l.
Proof.
  induction l as [|a l IH]; intros fs.
  - by exists [], fs, [].
  - rewrite run_each_cons. destruct (f a fs) as [[r fs1] t1].
    destruct (IH fs1) as (futs & fs2 & t2 & -> & Hlen).
    exists (r :: futs), fs2, (t1 ++ t2). split; [done|]. simpl. by rewrite Hlen.
Qed.

(** When every task asks for one URL, the batch asks for one URL per
    task, in the order the tasks ran. *)
Lemma run_each_requests {A B} (f : A -> M B) (g : A -> string) (l : list A) :
  (forall a (fs : FS.t) r fs' t, f a fs = (r, fs', t) -> requests t = [g a]) ->
  forall (fs : FS.t) r fs' t,
    run_each f l fs = (r, fs', t) -> requests t = g <$> l.
Proof.
  intros Hf. induction l as [|a l IH]; intros fs r fs' t.
  - by intros [= <- <- <-].
  - rewrite run_each_cons. destruct (f a fs) as [[r1 fs1] t1] eqn:Ha.
    destruct (run_each f l fs1) as [[r2 fs2] t2] eqn:Hl.
    apply Hf in Ha. apply IH in Hl.
    destruct r2; intros [= <- <- <-]; by rewrite requests_app, Ha, Hl.
Qed.

(** A state property kept by every task is kept by the batch. *)
Lemma run_each_invariant {A B} (f : A -> M B) (P : FS.t -> Prop) (l : list A) :
  (forall a (fs : FS.t) r fs' t, a ∈ l -> P fs -> f a fs = (r, fs', t) -> P fs') ->
  forall (fs : FS.t) r fs' t,
    P fs -> run_each f l fs = (r, fs', t) -> P fs'.
Proof.
  induction l as [|a l IH]; intros Hf fs r fs' t HP.
  - by intros [= <- <- <-].
  - rewrite run_each_cons. destruct (f a fs) as [[r1 fs1] t1] eqn:Ha.
    destruct (run_each f l fs1) as [[r2 fs2] t2] eqn:Hl.
    assert (P fs2) as HP2.
    { eapply IH; [| |exact Hl].
      - intros a' fs0 r0 fs0' t0 Hin. apply Hf. by right.
      - eapply Hf; [|exact HP|exact Ha]. by left. }
    by destruct r2; intros [= <- <- <-].
Qed.

End Batch.

(** ** Failure isolation inside a batch *)

Section Isolation.

Variables (E : env) (query : string) (output_dir folder_name : option string).

Let base : Path.t := base_dir E output_dir.
Let folder : Path.t := base_dir E output_dir // folder_of query folder_name.
Let dest (i : nat) (ext : string) : Path.t :=
  destination E query i ext output_dir folder_name.
Let task : nat * (string * string) -> M unit :=
  fun '(idx, image) =>
    download_image_from_url E image query idx output_dir folder_name.

Lemma exists_insert (fs : FS.t) (q p : Path.t) (x : FS.node) :
  FS.exists_ fs p = true -> FS.exists_ (<[q := x]> fs) p = true.
Proof.
  unfold FS.exists_. destruct p as [|c p]; [done|]. simpl.
  destruct (decide (q = c :: p)) as [->|Hne].
  - by rewrite lookup_insert_eq.
  - by rewrite lookup_insert_ne.
Qed.

Lemma dest_not_root (i : nat) (ext : string) : dest i ext <> [].
Proof.
  intros H. apply (destination_off_folder E query i ext output_dir folder_name).
  fold (dest i ext). rewrite H. apply suffix_nil.
Qed.

Lemma ready_task (url ext : string) (idx : nat) (fs : FS.t) r fs' t :
  ready base folder fs ->
  download_image_from_url E (url, ext) query idx output_dir folder_name fs
  = (r, fs', t) ->
  ready base folder fs'.
Proof.
  intros [Hex Hmk] Hrun.
  apply task_shape in Hrun as [->|(fs1 & Hmk1 & Hrun)]; [done|].
  fold folder in Hmk1.
  destruct (mkdir_parents_post _ _ _ Hmk1) as (_ & Hnew & _).
  pose proof (new_dirs_exists _ _ _ _ Hnew Hex) as Hex1.
  pose proof (mkdir_parents_again _ _ _ Hmk1) as Hagain.
  destruct Hrun as [->|(c & _ & ->)].
  - split; [done|]. by exists fs1.
  - split; [by apply exists_insert|].
    eexists. rewrite mkdir_parents_frame, Hagain; [done| |].
    + apply destination_off_folder.
    + apply dest_not_root.
Qed.

Lemma not_dir_task (k : nat) (e url ext : string) (idx : nat) (fs : FS.t) r fs' t :
  fs !! dest k e <> Some FS.Dir ->
  download_image_from_url E (url, ext) query idx output_dir folder_name fs
  = (r, fs', t) ->
  fs' !! dest k e <> Some FS.Dir.
Proof.
  intros Hnd Hrun.
  apply task_shape in Hrun as [->|(fs1 & Hmk1 & Hrun)]; [done|].
  destruct (mkdir_parents_post _ _ _ Hmk1) as (_ & Hnew & _).
  assert (fs1 !! dest k e <> Some FS.Dir) as Hnd1.
  { rewrite (new_dirs_off_path _ _ _ _ Hnew); [done|].
    apply destination_off_folder. }
  destruct Hrun as [->|(c & _ & ->)]; [done|].
  destruct (decide (destination E query idx ext output_dir folder_name = dest k e))
    as [->|Hne].
  - by rewrite lookup_insert_eq.
  - by rewrite lookup_insert_ne.
Qed.

Lemma written_task (k : nat) (e : string) (c : FS.content) (url ext : string)
    (idx : nat) (fs : FS.t) r fs' t :
  idx <> k ->
  fs !! dest k e = Some (FS.File c) ->
  download_image_from_url E (url, ext) query idx output_dir folder_name fs
  = (r, fs', t) ->
  fs' !! dest k e = Some (FS.File c).
Proof.
  intros Hk Hw Hrun.
  apply task_shape in Hrun as [->|(fs1 & Hmk1 & Hrun)]; [done|].
  destruct (mkdir_parents_post _ _ _ Hmk1) as (_ & Hnew & _).
  assert (fs1 !! dest k e = Some (FS.File c)) as Hw1.
  { rewrite (new_dirs_off_path _ _ _ _ Hnew); [done|].
    apply destination_off_folder. }
  destruct Hrun as [->|(c' & _ & ->)]; [done|].
  rewrite lookup_insert_ne; [done|].
  intros Heq. apply Hk. by eapply destination_inj.
Qed.

(** The one file a task can make or change is the one at its
    destination. *)
Lemma task_files (url ext : string) (idx : nat) (fs : FS.t) r fs' t :
  download_image_from_url E (url, ext) query idx output_dir folder_name fs
  = (r, fs', t) ->
  forall p c, fs' !! p = Some (FS.File c) ->
    fs !! p = Some (FS.File c) \/ p = dest idx ext.
Proof.
  intros Hrun p c Hp.
  apply task_shape in Hrun as [->|(fs1 & Hmk & [->|(c' & _ & ->)])].
  - by left.
  - left. destruct (mkdir_parents_post _ _ _ Hmk) as (_ & Hnew & _).
    by eapply new_dirs_file.
  - destruct (decide (destination E query idx ext output_dir folder_name = p))
      as [<-|Hne]; [by right|].
    left. rewrite lookup_insert_ne in Hp by done.
    destruct (mkdir_parents_post _ _ _ Hmk) as (_ & Hnew & _).
    by eapply new_dirs_file.
Qed.

(** The files of a batch are at the destinations of its tasks. *)
Lemma batch_files (l : list (nat * (string * string))) :
  forall (fs : FS.t) r fs' t,
    run_each task l fs = (r, fs', t) ->
    forall p c, fs' !! p = Some (FS.File c) ->
      fs !! p = Some (FS.File c)
      \/ exists i url ext, (i, (url, ext)) ∈ l /\ p = dest i ext.
Proof.
  induction l as [|[idx [url ext]] l IH]; intros fs r fs' t.
  - intros [= <- <- <-] p c Hp. by left.
  - rewrite run_each_cons.
    destruct (task (idx, (url, ext)) fs) as [[r1 fs1] t1] eqn:H1.
    destruct (run_each task l fs1) as [[r2 fs2] t2] eqn:H2.
    intros Hrun. assert (fs' = fs2) as -> by (by destruct r2; simplify_eq).
    clear Hrun. intros p c Hp.
    change (download_image_from_url E (url, ext) query idx output_dir
              folder_name fs = (r1, fs1, t1)) in H1.
    destruct (IH _ _ _ _ H2 p c Hp) as [Hp1|(i & u & x & Hin & ->)].
    + destruct (task_files _ _ _ _ _ _ _ H1 p c Hp1) as [Hp0| ->]; [by left|].
      right. exists idx, url, ext. split; [by left|done].
    + right. exists i, u, x. split; [by right|done].
Qed.

(** A file that is written stays as it is while other tasks run. *)
Lemma batch_keeps (k : nat) (e : string) (c : FS.content)
    (l : list (nat * (string * string))) (fs : FS.t) r fs' t :
  k ∉ l.*1 ->
  fs !! dest k e = Some (FS.File c) ->
  run_each task l fs = (r, fs', t) ->
  fs' !! dest k e = Some (FS.File c).
Proof.
  intros Hk Hw Hrun.
  eapply (run_each_invariant task (fun fs => fs !! dest k e = Some (FS.File c)));
    [|exact Hw|exact Hrun].
  intros [idx [url ext]] fs0 r0 fs0' t0 Hin Hw0 Hrun0.
  eapply written_task; [|exact Hw0|exact Hrun0].
  intros ->. apply Hk. apply list_elem_of_fmap. by exists (k, (url, ext)).
Qed.

(** The task of a record whose image arrives gets its file written,
    whatever the other tasks of the batch do and in whatever order. *)
Lemma batch_writes (k : nat) (url ext : string) (raw : stream)
    (l : list (nat * (string * string))) :
  image E url = ImageOk raw ->
  PyStr.contains "/" ext = false ->
  NoDup l.*1 ->
  (k, (url, ext)) ∈ l ->
  forall (fs : FS.t) r fs' t,
    ready base folder fs ->
    fs !! dest k ext <> Some FS.Dir ->
    run_each task l fs = (r, fs', t) ->
    fs' !! dest k ext
    = Some (FS.File (FS.Bytes (String.concat "" (chunks raw)))).
Proof.
  intros Himg Hext. induction l as [|[idx [url' ext']] l IH];
    intros Hnd Hin fs r fs' t Hready Hfree; [by apply elem_of_nil in Hin|].
  rewrite fmap_cons in Hnd. apply NoDup_cons in Hnd as [Hidx Hnd].
  rewrite run_each_cons.
  destruct (task (idx, (url', ext')) fs) as [[r1 fs1] t1] eqn:H1.
  destruct (run_each task l fs1) as [[r2 fs2] t2] eqn:H2.
  intros Hrun. assert (fs' = fs2) as -> by (by destruct r2; simplify_eq).
  clear Hrun.
  change (download_image_from_url E (url', ext') query idx output_dir
            folder_name fs = (r1, fs1, t1)) in H1.
  apply elem_of_cons in Hin as [[= <- <- <-]|Hin].
  - destruct Hready as [Hex [fsm Hmk]].
    destruct (task_writes E url ext query k output_dir folder_name fs fsm raw)
      as (r' & t' & Hrun & _); try done.
    rewrite Hrun in H1. injection H1 as <- <- <-.
    eapply batch_keeps; [exact Hidx| |exact H2].
    apply lookup_insert_eq.
  - eapply (IH Hnd Hin fs1); [| |exact H2].
    + by eapply ready_task.
    + by eapply not_dir_task.
Qed.

End Isolation.

(** What a batch does, whatever its tasks meet. *)
Lemma batch_outcome (E : env) (images : list (string * string))
    (query : string) (output_dir folder_name : option string) (fs : FS.t) :
  fair E ->
  exists futures fs' t,
    pool E inner_max_workers
      (fun '(idx, image) =>
         download_image_from_url E image query idx output_dir folder_name)
      (enumerate images) fs
    = (Ok futures, fs', t)
    /\ length futures = length images
    /\ requests t ≡ₚ images.*1
    /\ (ready (base_dir E output_dir)
          (base_dir E output_dir // folder_of query folder_name) fs ->
        forall i url ext raw,
          images !! i = Some (url, ext) ->
          image E url = ImageOk raw ->
          PyStr.contains "/" ext = false ->
          fs !! destination E query i ext output_dir folder_name <> Some FS.Dir ->
          fs' !! destination E query i ext output_dir folder_name
          = Some (FS.File (FS.Bytes (String.concat "" (chunks raw)))))
    /\ (forall p c,
          fs' !! p = Some (FS.File c) ->
          fs !! p = Some (FS.File c)
          \/ exists i url ext,
               images !! i = Some (url, ext)
               /\ p = destination E query i ext output_dir folder_name).
Proof.
  intros Hfair. unfold pool.
  pose proof (Hfair _ (enumerate images)) as Hperm.
  destruct (run_each_total
              (fun '(idx, image) =>
                 download_image_from_url E image query idx output_dir folder_name)
              (order E _ (enumerate images)) fs)
    as (futures & fs' & t & Hrun & Hlen).
  exists futures, fs', t. split; [exact Hrun|]. split; [|split; [|split]].
  - rewrite Hlen, Hperm. unfold enumerate.
    rewrite length_zip_with, length_seq. lia.
  - assert (requests t
            = (fun a : nat * (string * string) => a.2.1)
                <$> order E _ (enumerate images)) as ->.
    { eapply run_each_requests; [|exact Hrun].
      intros [idx [url ext]] fs0 r0 fs0' t0. apply task_requests. }
    rewrite Hperm. rewrite <- (enumerate_snd images) at 2.
    by rewrite <- list_fmap_compose.
  - intros Hready i url ext raw Hi Himg Hext Hfree.
    eapply (batch_writes E query output_dir folder_name i url ext raw);
      [exact Himg|exact Hext| | |exact Hready|exact Hfree|exact Hrun].
    + rewrite Hperm, enumerate_fst. apply NoDup_seq.
    + rewrite Hperm. apply list_elem_of_lookup. exists i.
      by apply enumerate_lookup.
  - intros p c Hp.
    destruct (batch_files E query output_dir folder_name _ _ _ _ _ Hrun p c Hp)
      as [Hp0|(i & url & ext & Hin & ->)]; [by left|].
    right. exists i, url, ext. split; [|done].
    rewrite Hperm in Hin. by apply elem_of_enumerate.
Qed.

(** ** One query: [download_images_single_query_async] *)

Section SingleQuery.

Variable E : env.

Lemma save_urls_csv_run (data : list (string * string)) (d name : string)
    (fs : FS.t) :
  save_urls_csv data (Some d) name fs =
  if FS.exists_ fs (Path.of_string d) then
    match FS.open_w fs (Path.of_string d // (name +:+ "_urls.csv")) (FS.Rows []) with
    | Ok fs1 =>
        (Ok tt,
         FS.close_w fs1 (Path.of_string d // (name +:+ "_urls.csv"))
           (FS.Rows (csv_rows data)),
         [])
    | Raise e => (Raise e, fs, [])
    end
  else (Ok tt, fs, []).
Proof.
  unfold save_urls_csv, bind, get_fs, fs_call, fs_update, ret.
  destruct (FS.exists_ fs (Path.of_string d)); [|done].
  by destruct (FS.open_w fs _ _).
Qed.

Lemma single_query_run (q : pyquery) (output_dir folder_name : option string)
    (just_csv_no_download urls_to_csv : bool) (fs : FS.t) :
  download_images_single_query_async E q output_dir folder_name
    just_csv_no_download urls_to_csv fs =
  match fetch_image_urls E (search_url q) (plus_query q) fs with
  | (Raise e, fs1, t1) => (Raise e, fs1, t1)
  | (Ok images, fs1, t1) =>
      match (if negb just_csv_no_download then
               pool E inner_max_workers
                 (fun '(idx, image) =>
                    download_image_from_url E image (plus_query q) idx
                      output_dir folder_name)
                 (enumerate images) fs1
             else (Ok [], fs1, [])) with
      | (Raise e, fs2, t2) => (Raise e, fs2, t1 ++ t2)
      | (Ok _, fs2, t2) =>
          match (if urls_to_csv || just_csv_no_download then
                   save_urls_csv images output_dir
                     (default_query_name (plus_query q)) fs2
                 else (Ok tt, fs2, [])) with
          | (r, fs3, t3) => (r, fs3, t1 ++ t2 ++ t3)
          end
      end
  end.
Proof.
  unfold download_images_single_query_async, search_url, plus_query.
  unfold bind at 1.
  destruct (fetch_image_urls E _ _ fs) as [[[images|e] fs1] t1]; [|done].
  unfold bind at 1. destruct just_csv_no_download; simpl.
  - unfold ret at 1. rewrite !orb_true_r.
    by destruct (save_urls_csv images output_dir _ fs1) as [[r fs3] t3].
  - unfold bind at 1.
    destruct (pool E inner_max_workers _ _ fs1) as [[[futs|e] fs2] t2];
      [|done].
    unfold ret at 1. rewrite app_nil_r, orb_false_r.
    destruct urls_to_csv.
    + by destruct (save_urls_csv images output_dir _ fs2) as [[r fs3] t3].
    + unfold ret. by rewrite app_nil_r.
Qed.

(** A query whose extraction fails stops there. *)
Lemma single_query_failed (q : pyquery) (output_dir folder_name : option string)
    (just_csv_no_download urls_to_csv : bool) (fs : FS.t) e fs1 t1 :
  fetch_image_urls E (search_url q) (plus_query q) fs = (Raise e, fs1, t1) ->
  download_images_single_query_async E q output_dir folder_name
    just_csv_no_download urls_to_csv fs = (Raise e, fs, t1).
Proof.
  intros H. rewrite single_query_run, H.
  apply fetch_inv in H. by destruct H as (-> & _).
Qed.

(** Without [--output_dir] the CSV is never written: [Path(None)]. *)
Lemma csv_only_default_dir (q : pyquery) (folder_name : option string)
    (urls_to_csv : bool) (fs : FS.t) images fs1 t1 :
  fetch_image_urls E (search_url q) (plus_query q) fs = (Ok images, fs1, t1) ->
  download_images_single_query_async E q None folder_name true urls_to_csv fs
  = (Raise TypeError, fs, [Get (search_url q)]).
Proof.
  intros H. rewrite single_query_run, H. simpl.
  rewrite orb_true_r. simpl.
  rewrite fetch_run in H. revert H.
  destruct (search E (search_url q)) as [e|divs].
  - destruct (is_Timeout e); [done|]. by destruct (is_HTTPError e).
  - destruct (parse_results divs []); [|done]. by intros [= <- <- <-].
Qed.

Lemma kept_csv_name (name : string) : Path.kept (name +:+ "_urls.csv") = true.
Proof.
  unfold Path.kept. apply negb_true_iff, orb_false_iff.
  split; apply String.eqb_neq; by destruct name as [|c [|c' name]].
Qed.

Lemma no_separator_relative (a b : string) :
  PyStr.contains "/" a = false -> Path.is_absolute b = false ->
  Path.is_absolute (a +:+ b) = false.
Proof.
  destruct a as [|c a]; simpl; [done|].
  by destruct (Ascii.eqb c "/").
Qed.

(** A CSV name without a separator is one component below the base. *)
Lemma join_csv_name (p : Path.t) (name : string) :
  PyStr.contains "/" name = false ->
  p // (name +:+ "_urls.csv") = (name +:+ "_urls.csv") :: p.
Proof.
  intros Hname. rewrite join_relative by (by apply no_separator_relative).
  unfold Path.of_string, Path.components.
  rewrite fields_no_separator by (by rewrite contains_append, Hname).
  simpl. by rewrite kept_csv_name.
Qed.

(** With a base directory, csv-only mode fetches no image and writes
    the header and one row per record. *)
Lemma csv_only_writes (q : pyquery) (d : string) (folder_name : option string)
    (urls_to_csv : bool) (fs : FS.t) images fs1 t1 :
  fetch_image_urls E (search_url q) (plus_query q) fs = (Ok images, fs1, t1) ->
  FS.is_dir fs (Path.of_string d) = true ->
  PyStr.contains "/" (default_query_name (plus_query q)) = false ->
  fs !! (csv_name q :: Path.of_string d) <> Some FS.Dir ->
  download_images_single_query_async E q (Some d) folder_name true urls_to_csv fs
  = (Ok tt,
     <[csv_name q :: Path.of_string d := FS.File (FS.Rows (csv_rows images))]> fs,
     [Get (search_url q)])
  /\ length (csv_rows images) = S (length images).
Proof.
  intros H Hd Hname Hfree. rewrite single_query_run, H.
  cbn [negb]. rewrite orb_true_r.
  assert (fs1 = fs /\ t1 = [Get (search_url q)]) as [-> ->].
  { rewrite fetch_run in H. revert H.
    destruct (search E (search_url q)) as [e|divs].
    - destruct (is_Timeout e); [done|]. by destruct (is_HTTPError e).
    - destruct (parse_results divs []); [|done]. by intros [= <- <- <-]. }
  rewrite save_urls_csv_run, (is_dir_exists _ _ Hd).
  assert (Path.of_string d // (default_query_name (plus_query q) +:+ "_urls.csv")
          = csv_name q :: Path.of_string d) as ->.
  { by apply join_csv_name. }
  rewrite open_w_in_dir by done.
  unfold FS.close_w. rewrite insert_insert_eq. split; [done|].
  unfold csv_rows. simpl. by rewrite length_map.
Qed.

(** A query that is downloaded without a CSV is its extraction followed
    by its batch. *)
Lemma single_query_download (q : pyquery) (output_dir folder_name : option string)
    (fs : FS.t) images fs1 t1 futures fs' t :
  fetch_image_urls E (search_url q) (plus_query q) fs = (Ok images, fs1, t1) ->
  pool E inner_max_workers
    (fun '(idx, image) =>
       download_image_from_url E image (plus_query q) idx output_dir folder_name)
    (enumerate images) fs
  = (Ok futures, fs', t) ->
  download_images_single_query_async E q output_dir folder_name false false fs
  = (Ok tt, fs', t1 ++ t).
Proof.
  intros Hfetch Hpool. rewrite single_query_run, Hfetch. cbn [negb orb].
  apply fetch_inv in Hfetch as (-> & _). rewrite Hpool.
  by rewrite app_nil_r.
Qed.

End SingleQuery.

(** ** The batch of one query *)

(** C2: in a batch of N tasks a task that fails, in whatever way, ends
    alone: the pool does not raise, hands back N futures, and has issued
    one request per record, no more (nothing is retried) and no less
    (nothing is skipped); and a record whose image arrives has its file
    on disk at the end, whatever happened to the other tasks and in
    whatever order the pool ran them. The batch is the one
    [download_images_single_query_async] runs: the function returns
    normally with the batch's disk and events. The files are looked at
    for a batch whose paths are plain ([plain_batch]). *)
Theorem failure_isolation (E : env) (images : list (string * string))
    (query : string) (output_dir folder_name : option string) (fs : FS.t) :
  fair E ->
  exists futures fs' t,
    pool E inner_max_workers
      (fun '(idx, image) =>
         download_image_from_url E image query idx output_dir folder_name)
      (enumerate images) fs
    = (Ok futures, fs', t)
    /\ length futures = length images
    /\ requests t ≡ₚ images.*1
    /\ (plain_batch E images query output_dir folder_name ->
        ready (base_dir E output_dir)
          (base_dir E output_dir // folder_of query folder_name) fs ->
        forall i url ext raw,
          images !! i = Some (url, ext) ->
          image E url = ImageOk raw ->
          PyStr.contains "/" ext = false ->
          fs !! destination E query i ext output_dir folder_name <> Some FS.Dir ->
          fs' !! destination E query i ext output_dir folder_name
          = Some (FS.File (FS.Bytes (String.concat "" (chunks raw)))))
    /\ (forall q t1,
          query = plus_query q ->
          fetch_image_urls E (search_url q) (plus_query q) fs = (Ok images, fs, t1) ->
          download_images_single_query_async E q output_dir folder_name
            false false fs
          = (Ok tt, fs', t1 ++ t)).
Proof.
  intros Hfair.
  destruct (batch_outcome E images query output_dir folder_name fs Hfair)
    as (futures & fs' & t & Hrun & Hlen & Hreq & Hfiles & _).
  exists futures, fs', t. do 3 (split; [done|]).
  split; [intros _; exact Hfiles|].
  intros q t1 -> Hfetch. by eapply single_query_download.
Qed.

Lemma failure_isolation_witness :
  exists futures fs' t,
    pool Scenario.world inner_max_workers
      (fun '(idx, image) =>
         download_image_from_url Scenario.world image "dog" idx
           (Some "/tmp/out") None)
      (enumerate [("urlB", "png"); ("urlA", "jpg")]) Scenario.disk
    = (Ok futures, fs', t)
    /\ length futures = 2
    /\ requests t ≡ₚ ["urlB"; "urlA"]
    /\ fs' !! ["image_1.jpg"; "dog"; "out"; "tmp"]
       = Some (FS.File (FS.Bytes "abcd")).
Proof.
  destruct (failure_isolation Scenario.world [("urlB", "png"); ("urlA", "jpg")]
              "dog" (Some "/tmp/out") None Scenario.disk)
    as (futures & fs' & t & Hrun & Hlen & Hreq & Hfiles & _).
  - intros A l. reflexivity.
  - exists futures, fs', t. split; [exact Hrun|]. split; [exact Hlen|].
    split; [exact Hreq|].
    apply (fun Hplain =>
             Hfiles Hplain ltac:(split; [reflexivity|eexists; reflexivity])
               1 "urlA" "jpg" {| chunks := ["ab"; "cd"]; broken := None |});
      [|reflexivity|reflexivity|reflexivity|vm_compute; discriminate].
    split; [reflexivity|]. split; [reflexivity|].
    intros [|[|k]] u x; intros [= <- <-]; reflexivity.
Defined.

(** C4: the query hands its records the indices 0..N-1 in page order,
    and the task of record [i] writes to
    [destination_dir / folder / image_i.type_hint], the folder being the
    given name or else the normalized query and the hint taken as it
    is. Distinct indices give distinct file names and distinct paths;
    every regular file the query leaves that was not there before sits
    at the path of one of its records, under that record's index; and a
    record whose image arrives has its own bytes at its own path, in
    whatever order the tasks completed. Paths are joined as [pathlib]
    joins them; what is said of the disk is said for a batch whose
    paths are plain ([plain_batch]). *)
Theorem destination_of_task (E : env) (q : pyquery)
    (output_dir folder_name : option string) (fs : FS.t)
    (images : list (string * string)) (fs1 : FS.t) (t1 : list event) :
  fair E ->
  fetch_image_urls E (search_url q) (plus_query q) fs = (Ok images, fs1, t1) ->
  exists fs' t,
    download_images_single_query_async E q output_dir folder_name false false fs
    = (Ok tt, fs', t)
    /\ (forall i j e1 e2, i <> j ->
          "image_" +:+ PyStr.str_of_nat i +:+ "." +:+ e1
          <> "image_" +:+ PyStr.str_of_nat j +:+ "." +:+ e2
          /\ destination E (plus_query q) i e1 output_dir folder_name
             <> destination E (plus_query q) j e2 output_dir folder_name)
    /\ (plain_batch E images (plus_query q) output_dir folder_name ->
        forall p c,
          fs' !! p = Some (FS.File c) ->
          fs !! p = Some (FS.File c)
          \/ exists i url ext,
               images !! i = Some (url, ext)
               /\ i < length images
               /\ p = base_dir E output_dir
                      // match folder_name with
                         | Some f => f
                         | None => default_query_name (plus_query q)
                         end
                      // ("image_" +:+ PyStr.str_of_nat i +:+ "." +:+ ext))
    /\ (plain_batch E images (plus_query q) output_dir folder_name ->
        ready (base_dir E output_dir)
          (base_dir E output_dir // folder_of (plus_query q) folder_name) fs ->
        forall i url ext raw,
          images !! i = Some (url, ext) ->
          image E url = ImageOk raw ->
          PyStr.contains "/" ext = false ->
          fs !! destination E (plus_query q) i ext output_dir folder_name
          <> Some FS.Dir ->
          fs' !! (base_dir E output_dir
                  // match folder_name with
                     | Some f => f
                     | None => default_query_name (plus_query q)
                     end
                  // ("image_" +:+ PyStr.str_of_nat i +:+ "." +:+ ext))
          = Some (FS.File (FS.Bytes (String.concat "" (chunks raw))))).
Proof.
  intros Hfair Hfetch.
  destruct (batch_outcome E images (plus_query q) output_dir folder_name fs Hfair)
    as (futures & fs' & t & Hrun & _ & _ & Hwrites & Hfiles).
  exists fs', (t1 ++ t).
  split; [by eapply single_query_download|].
  split; [|split].
  - intros i j e1 e2 Hij. split; intros H; apply Hij.
    + by apply (image_filename_inj i j e1 e2).
    + by eapply destination_inj.
  - intros _ p c Hp.
    destruct (Hfiles p c Hp) as [Hp0|(i & url & ext & Hi & ->)]; [by left|].
    right. exists i, url, ext. split; [done|]. split; [|done].
    by eapply lookup_lt_Some.
  - intros _ Hready i url ext raw Hi Himg Hext Hfree.
    by apply (Hwrites Hready i url ext raw).
Qed.

Lemma destination_of_task_witness :
  exists fs' t,
    download_images_single_query_async Scenario.world (QStr "dog")
      (Some "/tmp/out") None false false Scenario.disk
    = (Ok tt, fs', t)
    /\ fs' !! ["image_0.jpg"; "dog"; "out"; "tmp"]
       = Some (FS.File (FS.Bytes "abcd")).
Proof.
  destruct (destination_of_task Scenario.world (QStr "dog") (Some "/tmp/out") None
              Scenario.disk [("urlA", "jpg"); ("urlB", "png")] Scenario.disk
              [Get (search_url (QStr "dog"))])
    as (fs' & t & Hrun & _ & _ & Hwrites).
  - intros A l. reflexivity.
  - reflexivity.
  - exists fs', t. split; [exact Hrun|].
    apply (fun Hplain =>
             Hwrites Hplain ltac:(split; [reflexivity|eexists; reflexivity])
               0 "urlA" "jpg" {| chunks := ["ab"; "cd"]; broken := None |});
      [|reflexivity|reflexivity|reflexivity|vm_compute; discriminate].
    split; [reflexivity|]. split; [reflexivity|].
    intros [|[|k]] u x; intros [= <- <-]; reflexivity.
Defined.

(** ** Several queries: [download_list_queries] and the script *)

Section Orchestrator.

Variable E : env.

(** The orchestrator never raises. *)
Lemma download_list_queries_total (qs : list string)
    (output_dir folder_name : option string)
    (just_csv_no_download urls_to_csv : bool) (fs : FS.t) :
  exists fs' t,
    download_list_queries E qs output_dir folder_name just_csv_no_download
      urls_to_csv fs = (Ok tt, fs', t).
Proof.
  unfold download_list_queries, pool, bind, ret.
  destruct (run_each_total
              (fun query =>
                 download_images_single_query_async E (QStr query) output_dir
                   folder_name just_csv_no_download urls_to_csv)
              (order E _ qs) fs) as (futs & fs' & t & -> & _).
  by exists fs', (t ++ []).
Qed.


End Orchestrator.




(** ** The script *)

(** C6 fails on the code: in csv-only mode without [--output_dir], which
    the help text says defaults to the Downloads directory and which the
    download path does default, [save_urls_csv] gets [None] and raises a
    [TypeError]: no image is requested, and no CSV is written either.
    With [--output_dir] the file is written, header and one row per
    record. *)
Theorem csv_only_default_dir_fails :
  download_images_single_query_async Scenario.world (QStr "dog") None None
    true false Scenario.disk
  = (Raise TypeError, Scenario.disk, [Get (search_url (QStr "dog"))])
  /\ download_list_queries Scenario.world ["dog"] None None true false
       Scenario.disk
     = (Ok tt, Scenario.disk, [Get (search_url (QStr "dog"))])
  /\ download_images_single_query_async Scenario.world (QStr "dog")
       (Some "/tmp/out") None true false Scenario.disk
     = (Ok tt,
        <[["dog_urls.csv"; "out"; "tmp"]
          := FS.File (FS.Rows [["image_url"; "extension"];
                               ["urlA"; "jpg"]; ["urlB"; "png"]])]> Scenario.disk,
        [Get (search_url (QStr "dog"))]).
Proof. repeat split; reflexivity. Qed.

(** C7: [--num_images] changes nothing in what the script does, and a
    query that is downloaded asks for every record's image, once each,
    however many there are. *)
Theorem num_images_ignored (E : env) (argv : inputs) (n : Z) (fs : FS.t) :
  main E (with_num_images n argv) fs = main E argv fs
  /\ (fair E ->
      forall q od fn urls_to_csv images fs1 t1,
        fetch_image_urls E (search_url q) (plus_query q) fs = (Ok images, fs1, t1) ->
        exists r fs' t,
          download_images_single_query_async E q od fn false urls_to_csv fs
          = (r, fs', t)
          /\ requests t ≡ₚ search_url q :: images.*1
          /\ length (requests t) = S (length images)).
Proof.
  split.
  - destruct argv as [q ni lq od fn uc jc].
    unfold main, with_num_images, get_user_input, path_dir, bind, get_fs, ret,
      raise. simpl.
    destruct od as [d|]; [|done]. by destruct (FS.is_dir fs (Path.of_string d)).
  - intros Hfair q od fn uc images fs1 t1 Hfetch.
    rewrite single_query_run, Hfetch. cbn [negb].
    destruct (fetch_inv _ _ _ _ _ _ _ Hfetch) as (-> & Hreq & _).
    destruct (batch_outcome E images (plus_query q) od fn fs Hfair)
      as (futs & fs2 & t2 & -> & _ & Hperm & _).
    rewrite orb_false_r.
    assert (exists r fs3 t3,
               (if uc then save_urls_csv images od
                             (default_query_name (plus_query q)) fs2
                else (Ok tt, fs2, [])) = (r, fs3, t3) /\ requests t3 = [])
      as (r & fs3 & t3 & -> & Hcsv).
    { destruct uc; [|by exists (Ok tt), fs2, []].
      destruct od as [d|]; [|by exists (Raise TypeError), fs2, []].
      rewrite save_urls_csv_run. destruct (FS.exists_ fs2 _); [|by eexists _, _, _].
      destruct (FS.open_w fs2 _ _); by eexists _, _, _. }
    exists r, fs3, (t1 ++ t2 ++ t3).
    split; [done|]. rewrite !requests_app, Hreq, Hcsv, app_nil_r. simpl.
    split; [by rewrite Hperm|]. by rewrite Hperm, length_fmap.
Qed.

Lemma num_images_ignored_witness :
  main Scenario.world (with_num_images 1 Scenario.argv) Scenario.disk
  = main Scenario.world Scenario.argv Scenario.disk
  /\ exists r fs' t,
       download_images_single_query_async Scenario.world (QStr "dog")
         (Some "/tmp/out") None false false Scenario.disk = (r, fs', t)
       /\ length (requests t) = 3.
Proof.
  destruct (num_images_ignored Scenario.world Scenario.argv 1 Scenario.disk)
    as [Hmain Htasks].
  split; [exact Hmain|].
  destruct (Htasks ltac:(intros A l; reflexivity) (QStr "dog") (Some "/tmp/out")
              None false [("urlA", "jpg"); ("urlB", "png")] Scenario.disk
              [Get (search_url (QStr "dog"))] ltac:(reflexivity))
    as (r & fs' & t & Hrun & _ & Hlen).
  by exists r, fs', t.
Defined.

(** C8: an output directory that is not an existing directory ends the
    run in [get_user_input], with a [NotADirectoryError], before any
    request is made and with the disk untouched. *)
Theorem invalid_output_dir (E : env) (argv : inputs) (d : string) (fs : FS.t) :
  output_dir argv = Some d ->
  FS.is_dir fs (Path.of_string d) = false ->
  get_user_input argv fs = (Raise NotADirectoryError, fs, [])
  /\ main E argv fs = (Raise NotADirectoryError, fs, []).
Proof.
  intros Hd Hnd.
  unfold main, get_user_input, path_dir, bind, get_fs, ret, raise.
  by rewrite Hd, Hnd.
Qed.

Lemma invalid_output_dir_witness :
  main Scenario.world (Build_inputs (Some ["dog"]) 100 None (Some "/nowhere")
                         None false false) Scenario.disk
  = (Raise NotADirectoryError, Scenario.disk, []).
Proof.
  apply (invalid_output_dir Scenario.world _ "/nowhere" Scenario.disk);
    reflexivity.
Defined.

Lemma query_normalization_witness :
  PyStr.contains "d" "['']" = false.
Proof.
  destruct query_normalization as (_ & _ & Hhead & _).
  apply (Hhead "['dog']" "d"%char "og"). reflexivity.
Defined.

(** ** The width of the pools *)

Section Pool.

Context {T : Type}.

Implicit Types (ths : list (option T)) (s : Executor.state T).

Lemma running_length ths : length (Executor.running ths) <= length ths.
Proof.
  induction ths as [|[x|] ths IH]; simpl; [lia| |];
    unfold Executor.running in *; simpl; lia.
Qed.




(** No pool ever has more threads than its width. *)
Lemma threads_bound max_workers tasks s :
  Executor.reachable max_workers tasks s ->
  length (Executor.threads s) <= max_workers.
Proof.
  unfold Executor.reachable. revert s.
  apply (rtc_ind_r (fun s => length (Executor.threads s) <= max_workers));
    [simpl; lia|].
  intros s1 s2 Hreach Hstep IH.
  destruct Hstep; simpl in *; rewrite ?length_app, ?length_insert; simpl; lia.
Qed.

Lemma in_flight_bound max_workers tasks s :
  Executor.reachable max_workers tasks s ->
  Executor.in_flight s <= max_workers.
Proof.
  intros H%threads_bound. unfold Executor.in_flight.
  pose proof (running_length (Executor.threads s)). lia.
Qed.









End Pool.

(** One more task is submitted, a thread is started for it and takes it. *)
Ltac submit_and_take i :=
  eapply rtc_l; [apply Executor.step_submit_spawn; simpl; lia|];
  simpl;
  eapply rtc_l; [apply (Executor.step_take _ i); reflexivity|];
  simpl.

(** C9: both pools have width 5: however the tasks of a batch, or the
    batches of a list of queries, are scheduled, at most 5 of them are
    running at any moment; with 20 records the bound is reached. *)
Theorem pool_width (T : Type) (tasks : list T) (s : Executor.state T) :
  inner_max_workers = 5
  /\ outer_max_workers = 5
  /\ (Executor.reachable inner_max_workers tasks s -> Executor.in_flight s <= 5)
  /\ (Executor.reachable outer_max_workers tasks s -> Executor.in_flight s <= 5)
  /\ exists s20, Executor.reachable inner_max_workers (seq 0 20) s20
                 /\ Executor.in_flight s20 = 5.
Proof.
  split; [done|]. split; [done|].
  split; [apply in_flight_bound|]. split; [apply in_flight_bound|].
  eexists. split.
  - unfold Executor.reachable, Executor.start, inner_max_workers.
    submit_and_take 0. submit_and_take 1. submit_and_take 2.
    submit_and_take 3. submit_and_take 4. apply rtc_refl.
  - reflexivity.
Qed.

Lemma pool_width_witness :
  Executor.in_flight
    {| Executor.to_submit := [2]; Executor.work_queue := [];
       Executor.threads := [Some 0; Some 1]; Executor.completed := [] |} <= 5.
Proof.
  destruct (pool_width nat [0; 1; 2]
              {| Executor.to_submit := [2]; Executor.work_queue := [];
                 Executor.threads := [Some 0; Some 1];
                 Executor.completed := [] |})
    as (_ & _ & Hinner & _).
  apply Hinner.
  unfold Executor.reachable, Executor.start, inner_max_workers.
  submit_and_take 0. submit_and_take 1. apply rtc_refl.
Defined.

(** ** The scenario, run *)

(** A query that is an absolute path names an absolute folder: the
    image goes there and not below the output directory. *)
Example absolute_query_run :
  download_image_from_url Scenario.world ("urlA", "jpg") "/tmp/elsewhere" 0
    (Some "/tmp/out") None Scenario.disk
  = (Ok tt,
     <[["image_0.jpg"; "elsewhere"; "tmp"] := FS.File (FS.Bytes "abcd")]>
       (<[["elsewhere"; "tmp"] := FS.Dir]> Scenario.disk),
     [Get "urlA"]).
Proof. reflexivity. Qed.

(** The list of queries [dog], [cat] on the scenario's disk: the first
    image of [dog] is written, the request for the second times out and
    is reported, the page of [cat] does not parse and is dropped
    without a word; the script ends normally. *)
Example scenario_run :
  main Scenario.world Scenario.argv Scenario.disk
  = (Ok tt,
     <[["image_0.jpg"; "dog"; "out"; "tmp"] := FS.File (FS.Bytes "abcd")]>
       (<[["dog"; "out"; "tmp"] := FS.Dir]> Scenario.disk),
     [Print (ListQueries [["dog"]; ["cat"]]);
      Get "https://www.google.co.in/search?q=dog&source=lnms&tbm=isch";
      Get "urlA"; Get "urlB"; Print (ImageTimedOut ConnectTimeout);
      Get "https://www.google.co.in/search?q=cat&source=lnms&tbm=isch"]).
Proof. reflexivity. Qed.

(** * Further properties of the module *)

(** ** More on query names *)

Section QueryNames.

Lemma string_rev_cons c s :
  String.rev (String c s) = String.rev s +:+ String c "".
Proof. unfold String.rev at 1. simpl. by rewrite rev_app_spec. Qed.

Lemma lstrip_fixed chars s :
  (forall c s', s = String c s' -> PyStr.contains c chars = false) ->
  PyStr.lstrip chars s = s.
Proof.
  destruct s as [|c s]; [done|]. intros H. simpl. by rewrite (H c s).
Qed.

Lemma rstrip_fixed chars s :
  (forall s' c, s = s' +:+ String c "" -> PyStr.contains c chars = false) ->
  PyStr.rstrip chars s = s.
Proof.
  intros H. unfold PyStr.rstrip.
  rewrite lstrip_fixed; [apply string_rev_involutive|].
  intros c r Hr. apply (H (String.rev r)).
  by rewrite <- (string_rev_involutive s), Hr, string_rev_cons.
Qed.

Lemma strip_fixed chars s :
  (forall c s', s = String c s' -> PyStr.contains c chars = false) ->
  (forall s' c, s = s' +:+ String c "" -> PyStr.contains c chars = false) ->
  PyStr.strip chars s = s.
Proof.
  intros Hh Hl. unfold PyStr.strip. rewrite (lstrip_fixed _ _ Hh).
  by apply rstrip_fixed.
Qed.

Lemma default_query_name_head q c s :
  default_query_name q = String c s -> PyStr.contains c "['']" = false.
Proof.
  rewrite default_query_name_unfold. intros H.
  apply replace_head in H as (d & x & H & ->).
  apply replace_head in H as (d' & x' & H & ->).
  apply strip_head in H. by apply underscore_kept.
Qed.

Lemma default_query_name_last q s c :
  default_query_name q = s +:+ String c "" -> PyStr.contains c "['']" = false.
Proof.
  rewrite default_query_name_unfold. intros H.
  apply replace_last in H as (y & d & H & ->).
  apply replace_last in H as (y' & d' & H & ->).
  apply strip_last in H. by apply underscore_kept.
Qed.

Lemma default_query_name_clean q :
  PyStr.contains "+" (default_query_name q) = false
  /\ PyStr.contains " " (default_query_name q) = false.
Proof.
  rewrite default_query_name_unfold. split.
  - apply contains_replace_other; [done|]. by apply contains_replace_old.
  - by apply contains_replace_old.
Qed.

(** X1: normalizing a name that is normalized already changes nothing:
    a folder name fed back as a query gives the same folder. *)
Theorem default_query_name_idempotent (q : string) :
  default_query_name (default_query_name q) = default_query_name q.
Proof.
  destruct (default_query_name_clean q) as [Hplus Hspace].
  rewrite (default_query_name_unfold (default_query_name q)).
  rewrite strip_fixed.
  - rewrite (replace_absent "+") by done. by rewrite (replace_absent " ").
  - apply default_query_name_head.
  - apply default_query_name_last.
Qed.

Lemma replace_length old new s :
  String.length (PyStr.replace old new s) = String.length s.
Proof. induction s as [|c s IH]; simpl; [done|]. by rewrite IH. Qed.

Lemma append_length a b :
  String.length (a +:+ b) = String.length a + String.length b.
Proof. induction a as [|c a IH]; simpl; [done|]. by rewrite IH. Qed.

Lemma strip_length chars s :
  String.length (PyStr.strip chars s) <= String.length s.
Proof.
  unfold PyStr.strip.
  destruct (lstrip_suffix chars s) as [pre Hpre].
  destruct (rstrip_prefix chars (PyStr.lstrip chars s)) as [suf Hsuf].
  rewrite Hpre at 2. rewrite Hsuf at 2. rewrite !append_length. lia.
Qed.

Lemma lstrip_replace chars old new s :
  PyStr.contains old chars = false -> PyStr.contains new chars = false ->
  PyStr.lstrip chars (PyStr.replace old new s)
  = PyStr.replace old new (PyStr.lstrip chars s).
Proof.
  intros Ho Hn. induction s as [|c s IH]; simpl; [done|].
  destruct (Ascii.eqb_spec c old) as [->|Hc].
  - rewrite Ho, Hn. simpl. by rewrite Ascii.eqb_refl.
  - destruct (PyStr.contains c chars); [done|]. simpl.
    by destruct (Ascii.eqb_spec c old).
Qed.

Lemma replace_append old new a b :
  PyStr.replace old new (a +:+ b)
  = PyStr.replace old new a +:+ PyStr.replace old new b.
Proof. induction a as [|c a IH]; simpl; [done|]. by rewrite IH. Qed.

Lemma replace_rev old new s :
  PyStr.replace old new (String.rev s) = String.rev (PyStr.replace old new s).
Proof.
  induction s as [|c s IH]; [done|].
  simpl PyStr.replace at 2. rewrite !string_rev_cons, replace_append, IH. done.
Qed.

Lemma strip_replace chars old new s :
  PyStr.contains old chars = false -> PyStr.contains new chars = false ->
  PyStr.strip chars (PyStr.replace old new s)
  = PyStr.replace old new (PyStr.strip chars s).
Proof.
  intros Ho Hn. unfold PyStr.strip, PyStr.rstrip.
  rewrite (lstrip_replace _ _ _ _ Ho Hn), <- replace_rev.
  rewrite (lstrip_replace _ _ _ _ Ho Hn). symmetry. apply replace_rev.
Qed.

Lemma replace_plus_after_space s :
  PyStr.replace " " "_" (PyStr.replace "+" "_" (PyStr.replace " " "+" s))
  = PyStr.replace " " "_" (PyStr.replace "+" "_" s).
Proof.
  induction s as [|c s IH]; simpl; [done|]. rewrite IH. f_equal.
  destruct (Ascii.eqb_spec c " ") as [->|Hs]; [done|].
  destruct (Ascii.eqb_spec c "+") as [->|Hp]; [done|].
  by destruct (Ascii.eqb_spec c " ").
Qed.

(** X2: the name of a query does not depend on whether its words were
    joined by spaces or by ['+']: the name computed from the string that
    goes into the search URL is the name of the query itself, and it is
    never longer than the query. *)
Theorem default_query_name_of_plus_query (q : string) :
  default_query_name (plus_query (QStr q)) = default_query_name q
  /\ String.length (default_query_name q) <= String.length q.
Proof.
  split.
  - unfold plus_query. simpl. rewrite !default_query_name_unfold.
    rewrite strip_replace by done. apply replace_plus_after_space.
  - rewrite default_query_name_unfold, !replace_length. apply strip_length.
Qed.

End QueryNames.

(** ** Folder names on the two paths of the script *)

Section FolderNames.

Lemma default_query_name_plus q :
  default_query_name (PyStr.replace " " "+" q) = default_query_name q.
Proof.
  rewrite !default_query_name_unfold, strip_replace by done.
  apply replace_plus_after_space.
Qed.

Lemma lstrip_append chars a x :
  a <> "" -> PyStr.lstrip chars a = a -> PyStr.lstrip chars (a +:+ x) = a +:+ x.
Proof.
  destruct a as [|c a]; [done|]. intros _ H.
  apply lstrip_head in H. simpl. by rewrite H.
Qed.

Lemma string_rev_nonempty s : s <> "" -> String.rev s <> "".
Proof.
  intros Hs Hr. apply Hs. by rewrite <- (string_rev_involutive s), Hr.
Qed.

Lemma rstrip_append chars x b :
  b <> "" -> PyStr.rstrip chars b = b -> PyStr.rstrip chars (x +:+ b) = x +:+ b.
Proof.
  unfold PyStr.rstrip. intros Hb H.
  apply (f_equal String.rev) in H. rewrite string_rev_involutive in H.
  rewrite string_rev_append, lstrip_append; [|by apply string_rev_nonempty|done].
  by rewrite <- string_rev_append, string_rev_involutive.
Qed.

Lemma rstrip_quote_bracket a :
  PyStr.rstrip "['']" (a +:+ "']") = PyStr.rstrip "['']" a.
Proof. unfold PyStr.rstrip. by rewrite string_rev_append. Qed.

Lemma strip_fixed_parts chars w :
  PyStr.strip chars w = w ->
  PyStr.lstrip chars w = w /\ PyStr.rstrip chars w = w.
Proof.
  intros H. assert (PyStr.lstrip chars w = w) as Hl.
  { apply lstrip_fixed. intros c s ->. by apply strip_head in H. }
  split; [done|]. unfold PyStr.strip in H. by rewrite Hl in H.
Qed.

Lemma strip_list_of_one w :
  PyStr.strip "['']" w = w -> PyStr.strip "['']" ("['" +:+ w +:+ "']") = w.
Proof.
  intros [Hl Hr]%strip_fixed_parts. unfold PyStr.strip. simpl.
  destruct w as [|c w]; [done|].
  rewrite (lstrip_append _ (String c w)) by done.
  by rewrite rstrip_quote_bracket.
Qed.

(** X3: a query of one plain word, one without space, ['+'] or
    surrounding bracket and quote characters, names its folder and its
    CSV file after the word itself on the [--query] path, where the
    word arrives inside a list, and as a query string. On the
    [--list_queries] path the name is the word itself too, unless the
    word is a piece of the punctuation string ["[''],"], the empty word
    or a lone comma: line 306 drops such a word and the name is
    empty. *)
Theorem one_word_query_name (w : string) :
  plain_word w = true ->
  PyStr.contains " " w = false ->
  PyStr.contains "+" w = false ->
  PyStr.strip "['']" w = w ->
  default_query_name (plus_query (QList [w])) = w
  /\ default_query_name (plus_query (QStr w)) = w
  /\ (PyStr.substring_of w "['']," = false ->
      default_query_name (plus_query (QStr (join_words [w]))) = w)
  /\ (PyStr.substring_of w "['']," = true ->
      default_query_name (plus_query (QStr (join_words [w]))) = "").
Proof.
  intros _ Hspace Hplus Hstrip.
  assert (default_query_name w = w) as Hname.
  { rewrite default_query_name_unfold, Hstrip.
    rewrite (replace_absent "+") by done. by rewrite (replace_absent " "). }
  assert (default_query_name (plus_query (QStr w)) = w) as Hstr.
  { unfold plus_query. simpl. by rewrite default_query_name_plus. }
  split; [|split; [done|split]].
  - unfold plus_query. rewrite default_query_name_plus. simpl.
    unfold PyStr.str_of_list. simpl.
    rewrite default_query_name_unfold.
    change (String "[" (String "'" ((w +:+ "'") +:+ "]")))
      with ("['" +:+ (w +:+ "'") +:+ "]").
    rewrite (append_assoc w). change ("'" +:+ "]") with "']".
    rewrite strip_list_of_one by done.
    rewrite (replace_absent "+") by done. by rewrite (replace_absent " ").
  - intros Hkept. unfold join_words. cbn [List.filter]. by rewrite Hkept.
  - intros Hdrop. unfold join_words. cbn [List.filter]. by rewrite Hdrop.
Qed.

Lemma one_word_query_name_witness :
  default_query_name (plus_query (QList ["dog"])) = "dog"
  /\ default_query_name (plus_query (QStr (join_words ["dog"]))) = "dog"
  /\ default_query_name (plus_query (QStr (join_words [","]))) = "".
Proof.
  destruct (one_word_query_name "dog") as (Hq & _ & Hl & _); [done..|].
  destruct (one_word_query_name ",") as (_ & _ & _ & Hp); [done..|].
  split; [exact Hq|]. split; [by apply Hl|by apply Hp].
Defined.

Lemma str_of_list_two a b :
  PyStr.str_of_list [a; b] = "['" +:+ a +:+ "', '" +:+ b +:+ "']".
Proof.
  unfold PyStr.str_of_list. cbn [map PyStr.join]. by rewrite !append_assoc.
Qed.

Lemma lstrip_bracket_quote x :
  PyStr.lstrip "['']" ("['" +:+ x) = PyStr.lstrip "['']" x.
Proof. done. Qed.

(** X4: with two plain words the two paths disagree. The words are
    not empty, have no space or ['+'], the first does not start and the
    second does not end with a bracket or quote. [--query a b] takes
    the name from the printed list, whose inner quotes and comma
    survive the stripping: the folder is [a',_'b]. The same two words
    as one entry of [--list_queries] give [a_b], when neither word is a
    piece of the punctuation string ["[''],"], which line 306 would
    drop. *)
Theorem two_word_query_name (a b : string) :
  plain_word a = true -> plain_word b = true ->
  PyStr.contains " " a = false -> PyStr.contains "+" a = false ->
  PyStr.contains " " b = false -> PyStr.contains "+" b = false ->
  a <> "" -> PyStr.lstrip "['']" a = a ->
  b <> "" -> PyStr.rstrip "['']" b = b ->
  default_query_name (plus_query (QList [a; b])) = a +:+ "',_'" +:+ b
  /\ (PyStr.substring_of a "['']," = false ->
      PyStr.substring_of b "['']," = false ->
      default_query_name (plus_query (QStr (join_words [a; b])))
      = a +:+ "_" +:+ b).
Proof.
  intros _ _ Hsa Hpa Hsb Hpb Ha Hla Hb Hrb.
  assert (forall mid,
             PyStr.strip "['']" (a +:+ mid +:+ b) = a +:+ mid +:+ b) as Hstrip.
  { intros mid. unfold PyStr.strip. rewrite lstrip_append by done.
    rewrite <- append_assoc. rewrite rstrip_append by done.
    by rewrite append_assoc. }
  split.
  - unfold plus_query. rewrite default_query_name_plus.
    cbn [str_of_query]. rewrite str_of_list_two, default_query_name_unfold.
    assert (PyStr.strip "['']" ("['" +:+ a +:+ "', '" +:+ b +:+ "']")
            = a +:+ "', '" +:+ b) as ->.
    { unfold PyStr.strip. rewrite lstrip_bracket_quote, lstrip_append by done.
      rewrite <- !append_assoc, rstrip_quote_bracket.
      rewrite rstrip_append by done. by rewrite !append_assoc. }
    rewrite !replace_append.
    rewrite !(replace_absent "+" _ a), !(replace_absent "+" _ b) by done.
    rewrite !(replace_absent " " _ a), !(replace_absent " " _ b) by done.
    done.
  - intros Hka Hkb. unfold join_words. cbn [List.filter].
    rewrite Hka, Hkb. cbn [negb PyStr.join].
    unfold plus_query. cbn [str_of_query]. rewrite default_query_name_plus.
    rewrite default_query_name_unfold, Hstrip.
    rewrite !replace_append.
    rewrite !(replace_absent "+" _ a), !(replace_absent "+" _ b) by done.
    rewrite !(replace_absent " " _ a), !(replace_absent " " _ b) by done.
    done.
Qed.

Lemma two_word_query_name_witness :
  default_query_name (plus_query (QList ["red"; "bear"])) = "red',_'bear"
  /\ default_query_name (plus_query (QStr (join_words ["red"; "bear"])))
     = "red_bear".
Proof.
  destruct (two_word_query_name "red" "bear") as [Hq Hl]; [done..|].
  split; [exact Hq|]. by apply Hl.
Defined.

Lemma join_words_filter ws :
  join_words ws
  = PyStr.join " "
      (List.filter (fun c => negb (PyStr.substring_of c "[''],")) ws).
Proof. done. Qed.

Lemma filter_all {A} (f : A -> bool) (l : list A) :
  (forall x, x ∈ l -> f x = true) -> List.filter f l = l.
Proof.
  induction l as [|a l IH]; intros H; simpl; [done|].
  rewrite (H a) by (by left). f_equal. apply IH. intros x Hx. apply H. by right.
Qed.

(** X5: a word that is a piece of the punctuation string ["[''],"], the
    empty word and a lone comma or quote among them, is dropped from
    its query wherever it stands; and a query without such a word is
    its words, all of them and in their order, with one space between
    neighbours. Together the two say what every query becomes. *)
Theorem join_words_drops_punctuation :
  (forall (before after : list string) (p : string),
      PyStr.substring_of p "['']," = true ->
      join_words (before ++ p :: after) = join_words (before ++ after))
  /\ (forall ws : list string,
        (forall w, w ∈ ws -> PyStr.substring_of w "['']," = false) ->
        join_words ws = PyStr.join " " ws)
  /\ (forall a b c : string,
        PyStr.substring_of a "['']," = false ->
        PyStr.substring_of b "['']," = false ->
        PyStr.substring_of c "['']," = false ->
        join_words [a; ","; b; ""; c] = a +:+ " " +:+ b +:+ " " +:+ c).
Proof.
  split; [|split].
  - intros before after p Hp. rewrite !join_words_filter, !List.filter_app.
    cbn [List.filter]. by rewrite Hp.
  - intros ws Hws. rewrite join_words_filter, filter_all; [done|].
    intros w Hw. by rewrite (Hws w Hw).
  - intros a b c Ha Hb Hc. rewrite join_words_filter. cbn [List.filter].
    rewrite Ha, Hb, Hc. cbn [negb PyStr.substring_of String.prefix].
    cbn [PyStr.join]. done.
Qed.

Lemma join_words_drops_punctuation_witness :
  join_words (["red"] ++ "," :: ["bear"]) = "red bear"
  /\ join_words ["red"; "bear"] = "red bear".
Proof.
  destruct join_words_drops_punctuation as (Hdrop & Hkeep & _).
  split.
  - by rewrite (Hdrop ["red"] ["bear"] ",").
  - apply Hkeep. intros w Hw.
    apply elem_of_cons in Hw as [->|Hw]; [done|].
    apply elem_of_cons in Hw as [->|Hw]; [done|].
    by apply elem_of_nil in Hw.
Defined.

End FolderNames.

(** ** More on extraction *)

Section MoreExtraction.

Variable E : env.

Lemma parse_results_Ok (divs : list div) : forall acc images,
  parse_results divs acc = Ok images <->
  exists recs, divs = blocks_of recs /\ images = acc ++ recs.
Proof.
  induction divs as [|a divs IH]; intros acc images; simpl.
  - split.
    + intros [= <-]. exists []. by rewrite app_nil_r.
    + intros ([|r recs] & Hd & ->); [by rewrite app_nil_r|done].
  - destruct a as [| |[u|] [x|]];
      try (split; [done|]; intros ([|[u' x'] recs] & [=] & _)).
    rewrite IH. split.
    + intros (recs & -> & ->). exists ((u, x) :: recs).
      split; [done|]. by rewrite <- app_assoc.
    + intros ([|[u' x'] recs] & [=] & ->). subst.
      exists recs. split; [done|]. by rewrite <- app_assoc.
Qed.

(** X6: extraction succeeds exactly when the request returns and every
    block of the page has both keys; it then returns one record per
    block, in page order, has asked for the search page only and has
    left the disk alone. One bad block loses the whole page: no record
    read before it is returned. *)
Theorem fetch_returns_page_records (url query : string) (fs : FS.t)
    (images : list (string * string)) (fs1 : FS.t) (t1 : list event) :
  fetch_image_urls E url query fs = (Ok images, fs1, t1) <->
  search E url = PageOk (blocks_of images) /\ fs1 = fs /\ t1 = [Get url].
Proof.
  rewrite fetch_run. destruct (search E url) as [e|divs].
  - split.
    + destruct (is_Timeout e); [done|]. by destruct (is_HTTPError e).
    + by intros [[=] _].
  - destruct (parse_results divs []) as [images'|e] eqn:Hparse.
    + apply parse_results_Ok in Hparse as (recs & -> & ->). simpl. split.
      * by intros [= <- <- <-].
      * intros ([= Hb] & -> & ->). do 3 f_equal.
        revert images Hb. induction recs as [|[u x] recs IH];
          intros [|[u' x'] images] [=]; subst; [done|].
        f_equal. by apply IH.
    + split; [done|]. intros ([= ->] & _ & _).
      assert (parse_results (blocks_of images) [] = Ok images) as Hok.
      { apply parse_results_Ok. by exists images. }
      congruence.
Qed.

(** X7: [fetch_image_urls] never raises the two exceptions its
    docstring announces. A request that times out or answers with an
    HTTP error is printed once and the function then raises
    [UnboundLocalError]; whenever the request raises at all, the
    function raises too and returns no list. *)
Theorem fetch_never_raises_timeout (url query : string) (fs : FS.t)
    (r : result (list (string * string))) (fs1 : FS.t) (t1 : list event) :
  fetch_image_urls E url query fs = (r, fs1, t1) ->
  (forall e, r = Raise e -> is_Timeout e = false /\ is_HTTPError e = false)
  /\ (forall e0, search E url = PageRaise e0 ->
      is_Timeout e0 || is_HTTPError e0 = true ->
      r = Raise UnboundLocalError /\ length (printed t1) = 1)
  /\ (forall e0, search E url = PageRaise e0 -> exists e, r = Raise e).
Proof.
  rewrite fetch_run. destruct (search E url) as [e0|divs].
  - destruct (is_Timeout e0) eqn:Ht.
    { intros [= <- <- <-]. split; [by intros e [= <-]|]. split; [done|].
      intros _ _. by eexists. }
    destruct (is_HTTPError e0) eqn:Hh.
    { intros [= <- <- <-]. split; [by intros e [= <-]|]. split; [done|].
      intros _ _. by eexists. }
    intros [= <- <- <-]. split; [by intros e [= <-]|]. split.
    + intros e1 [= <-]. by rewrite Ht, Hh.
    + intros _ _. by eexists.
  - intros H. split; [|split; [done|done]].
    intros e ->. revert H.
    destruct (parse_results divs []) as [images|e'] eqn:Hparse; [done|].
    intros [= <- _ _]. clear -Hparse. revert Hparse. generalize (@nil (string * string)).
    induction divs as [|a divs IH]; intros acc; simpl; [done|].
    destruct a as [| |[u|] [x|]]; try by intros [= <-].
    apply IH.
Qed.

End MoreExtraction.

Lemma fetch_never_raises_timeout_witness :
  length (printed [Get (search_url (QStr "bird")); Print (SearchTimedOut ReadTimeout)])
  = 1.
Proof.
  destruct (fetch_never_raises_timeout Scenario.world (search_url (QStr "bird")) "bird"
              Scenario.disk (Raise UnboundLocalError) Scenario.disk
              [Get (search_url (QStr "bird")); Print (SearchTimedOut ReadTimeout)])
    as (_ & Hprinted & _); [reflexivity|].
  by destruct (Hprinted ReadTimeout).
Defined.

(** ** More on one task *)

Section MoreTask.

Variable E : env.

Lemma image_clause_None (e : exn) :
  image_clause e = None ->
  is_Timeout e = false /\ is_HTTPError e = false /\ is_ConnectionError e = false.
Proof.
  unfold image_clause. destruct (is_Timeout e); [done|].
  destruct (is_HTTPError e); [done|]. by destruct (is_ConnectionError e).
Qed.

Lemma after_image_clauses_ending (e : exn) (fs : FS.t) (url : string) r fs' t :
  after_image_clauses e fs [Get url] = (r, fs', t) -> task_ending r t url.
Proof.
  intros H. apply after_image_clauses_inv in H as (_ & _ & [(-> & -> & Hc)|(m & -> & -> & _)]).
  - right. right. by exists e.
  - right. left. by exists m.
Qed.

Lemma after_save_clause_ending (e : exn) (fs : FS.t) (url : string) r fs' t :
  after_save_clause e fs [Get url] = (r, fs', t) -> task_ending r t url.
Proof.
  unfold after_save_clause. destruct (is_IOError e).
  - intros [= <- <- <-]. right. left. by eexists.
  - apply after_image_clauses_ending.
Qed.

Lemma task_endings (url ext query : string) (idx : nat)
    (output_dir folder_name : option string) (fs : FS.t) r fs' t :
  download_image_from_url E (url, ext) query idx output_dir folder_name fs
  = (r, fs', t) ->
  task_ending r t url.
Proof.
  rewrite download_run. cbv zeta.
  destruct (image E url) as [e|raw]; [apply after_image_clauses_ending|].
  destruct (FS.exists_ fs _).
  2:{ intros [= <- <- <-]. right. right. by exists TypeError. }
  destruct (FS.mkdir_parents fs _) as [fs1|e]; [|apply after_image_clauses_ending].
  destruct (FS.open_w fs1 _ _) as [fs2|e]; [|apply after_save_clause_ending].
  destruct (broken raw) as [e|]; [apply after_save_clause_ending|].
  intros [= <- <- <-]. by left.
Qed.

(** X8: a task never raises a timeout, an HTTP error or a connection
    error: those are printed and the task returns. It prints at most one
    message, and when it printed one it returned normally; an exception
    that leaves the task was not reported. *)
Theorem task_never_raises_reported (url ext query : string) (idx : nat)
    (output_dir folder_name : option string) (fs : FS.t)
    (r : result unit) (fs' : FS.t) (t : list event) :
  download_image_from_url E (url, ext) query idx output_dir folder_name fs
  = (r, fs', t) ->
  (forall e, r = Raise e ->
     is_Timeout e = false /\ is_HTTPError e = false
     /\ is_ConnectionError e = false /\ printed t = [])
  /\ length (printed t) <= 1
  /\ (printed t <> [] -> r = Ok tt).
Proof.
  intros H. apply task_endings in H as [[-> ->]|[(m & -> & ->)|(e & -> & -> & Hc)]].
  - split; [done|]. split; [simpl; lia|done].
  - split; [done|]. split; [simpl; lia|done].
  - split; [|split; [simpl; lia|done]].
    intros e' [= <-]. apply image_clause_None in Hc. tauto.
Qed.

(** X9: a stream that breaks with an error no clause names, as the raw
    urllib3 stream does, leaves a file with the bytes received so far:
    the task raises, prints nothing, and the partial file stays. The
    file is at [base / folder / image_idx.ext] as [pathlib] joins them,
    for a plain base and destination and a hint without separator. *)
Theorem broken_stream_leaves_partial_file (url ext query : string) (idx : nat)
    (output_dir folder_name : option string) (fs fs1 : FS.t) (raw : stream)
    (e : exn) :
  image E url = ImageOk raw ->
  broken raw = Some e ->
  is_IOError e = false ->
  image_clause e = None ->
  Path.plain (base_dir E output_dir) = true ->
  Path.plain (destination E query idx ext output_dir folder_name) = true ->
  FS.exists_ fs (base_dir E output_dir) = true ->
  FS.mkdir_parents fs (base_dir E output_dir // folder_of query folder_name)
  = Ok fs1 ->
  PyStr.contains "/" ext = false ->
  fs !! destination E query idx ext output_dir folder_name <> Some FS.Dir ->
  download_image_from_url E (url, ext) query idx output_dir folder_name fs
  = (Raise e,
     <[destination E query idx ext output_dir folder_name
       := FS.File (FS.Bytes (String.concat "" (chunks raw)))]> fs1,
     [Get url]).
Proof.
  intros Himg Hbroken Hio Hclause _ _ Hex Hmk Hext Hfree.
  destruct (task_writes E url ext query idx output_dir folder_name fs fs1 raw)
    as (r & t & Hrun & _); try done.
  rewrite Hrun. pose proof Hrun as Hrun'.
  rewrite download_run in Hrun'. cbv zeta in Hrun'.
  rewrite Himg, Hex, Hmk in Hrun'.
  destruct (FS.open_w fs1 _ _) as [fs2|e'] eqn:Hopen.
  - rewrite Hbroken in Hrun'. unfold after_save_clause in Hrun'.
    rewrite Hio in Hrun'. unfold after_image_clauses in Hrun'.
    rewrite Hclause in Hrun'. by injection Hrun' as <- _ <-.
  - exfalso. destruct (mkdir_parents_post _ _ _ Hmk) as (Hd & Hnew & _).
    rewrite destination_single in Hopen, Hfree by done.
    rewrite open_w_in_dir in Hopen; [done|done|].
    rewrite (new_dirs_off_path _ _ _ _ Hnew); [done|].
    rewrite <- (destination_single E query idx ext output_dir folder_name) by done.
    apply destination_off_folder.
Qed.

Lemma open_w_again (fs : FS.t) (p : Path.t) (c0 c c1 : FS.content) (fs' : FS.t) :
  FS.open_w fs p c0 = Ok fs' ->
  FS.open_w (<[p := FS.File c]> fs) p c1 = Ok (<[p := FS.File c1]> fs).
Proof.
  destruct p as [|x parent]; [done|]. simpl.
  assert (FS.node_at (<[x :: parent := FS.File c]> fs) parent
          = FS.node_at fs parent) as ->.
  { destruct parent as [|y parent]; [done|]. simpl.
    apply lookup_insert_ne. intros H. apply (f_equal length) in H.
    simpl in H. lia. }
  destruct (FS.node_at fs parent) as [[]|]; try done.
  intros _. by rewrite lookup_insert_eq, insert_insert_eq.
Qed.

Lemma open_w_Raise_IOError (fs : FS.t) (p : Path.t) (c : FS.content) (e : exn) :
  FS.open_w fs p c = Raise e -> is_IOError e = true.
Proof.
  destruct p as [|x parent]; simpl; [by intros [= <-]|].
  destruct (FS.node_at fs parent) as [[]|]; try by intros [= <-].
  destruct (fs !! (x :: parent)) as [[]|]; try done; by intros [= <-].
Qed.

(** X10: running a task again on the disk it left behind ends the same
    way and changes nothing: a download that is repeated overwrites the
    file with the same bytes and makes no further directory. *)
Theorem task_repeated (url ext query : string) (idx : nat)
    (output_dir folder_name : option string) (fs : FS.t)
    (r : result unit) (fs' : FS.t) (t : list event) :
  download_image_from_url E (url, ext) query idx output_dir folder_name fs
  = (r, fs', t) ->
  download_image_from_url E (url, ext) query idx output_dir folder_name fs'
  = (r, fs', t).
Proof.
  rewrite !download_run. cbv zeta.
  destruct (image E url) as [e|raw].
  { intros H. pose proof H as H'.
    apply after_image_clauses_inv in H' as (-> & _). exact H. }
  destruct (FS.exists_ fs _) eqn:Hex.
  2:{ intros [= <- <- <-]. by rewrite Hex. }
  destruct (FS.mkdir_parents fs _) as [fs1|e] eqn:Hmk.
  2:{ intros H. pose proof H as H'.
      apply after_image_clauses_inv in H' as (-> & _). by rewrite Hex, Hmk. }
  destruct (mkdir_parents_post _ _ _ Hmk) as (_ & Hnew & _).
  pose proof (new_dirs_exists _ _ _ _ Hnew Hex) as Hex1.
  pose proof (mkdir_parents_again _ _ _ Hmk) as Hagain.
  destruct (FS.open_w fs1 _ _) as [fs2|e] eqn:Hopen.
  2:{ intros H. pose proof H as H'.
      apply after_save_clause_inv in H' as (-> & _).
      by rewrite Hex1, Hagain, Hopen. }
  pose proof Hopen as Hopen'. apply open_w_Ok in Hopen' as (_ & Hroot & ->).
  unfold FS.close_w. rewrite insert_insert_eq.
  set (dest := destination E query idx ext output_dir folder_name) in *.
  set (done_ := FS.File (FS.Bytes (String.concat "" (chunks raw)))).
  assert (forall (fs3 : FS.t),
             fs3 = <[dest := done_]> fs1 ->
             (if FS.exists_ fs3 (base_dir E output_dir) then
                match FS.mkdir_parents fs3
                        (base_dir E output_dir // folder_of query folder_name) with
                | Ok fsa =>
                    match FS.open_w fsa dest (FS.Bytes "") with
                    | Ok fsb =>
                        match broken raw with
                        | Some e => after_save_clause e (<[dest := done_]> fsb) [Get url]
                        | None => (Ok tt, <[dest := done_]> fsb, [Get url])
                        end
                    | Raise e => after_save_clause e fsa [Get url]
                    end
                | Raise e => after_image_clauses e fs3 [Get url]
                end
              else (Raise TypeError, fs3, [Get url]))
             = match broken raw with
               | Some e => after_save_clause e fs3 [Get url]
               | None => (Ok tt, fs3, [Get url])
               end) as Hsecond.
  { intros fs3 ->. rewrite exists_insert by done.
    rewrite mkdir_parents_frame, Hagain;
      [|apply destination_off_folder|done].
    cbv beta iota. unfold done_ at 1.
    rewrite (open_w_again _ _ _ _ _ _ Hopen).
    by rewrite !insert_insert_eq. }
  destruct (broken raw) as [e|] eqn:Hbroken.
  - intros H. pose proof H as H'.
    apply after_save_clause_inv in H' as (-> & _).
    by rewrite (Hsecond _ eq_refl).
  - intros [= <- <- <-]. by rewrite (Hsecond _ eq_refl).
Qed.

End MoreTask.

Lemma task_never_raises_reported_witness :
  length (printed [Get "urlB"; Print (ImageTimedOut ConnectTimeout)]) <= 1.
Proof.
  destruct (task_never_raises_reported Scenario.world "urlB" "png" "dog" 1
              (Some "/tmp/out") None Scenario.disk (Ok tt) Scenario.disk
              [Get "urlB"; Print (ImageTimedOut ConnectTimeout)])
    as (_ & H & _); [reflexivity|exact H].
Defined.

Lemma broken_stream_leaves_partial_file_witness :
  download_image_from_url Scenario2.world ("urlA", "jpg") "dog" 0
    (Some "/tmp/out") None Scenario2.disk
  = (Raise Urllib3Error,
     <[["image_0.jpg"; "dog"; "out"; "tmp"] := FS.File (FS.Bytes "ab")]>
       (<[["dog"; "out"; "tmp"] := FS.Dir]> Scenario2.disk),
     [Get "urlA"]).
Proof.
  apply (broken_stream_leaves_partial_file Scenario2.world "urlA" "jpg" "dog" 0
           (Some "/tmp/out") None Scenario2.disk
           (<[["dog"; "out"; "tmp"] := FS.Dir]> Scenario2.disk)
           {| chunks := ["ab"]; broken := Some Urllib3Error |} Urllib3Error);
    try reflexivity.
  vm_compute. discriminate.
Defined.

Lemma task_repeated_witness :
  download_image_from_url Scenario.world ("urlA", "jpg") "dog" 0
    (Some "/tmp/out") None
    (<[["image_0.jpg"; "dog"; "out"; "tmp"] := FS.File (FS.Bytes "abcd")]>
       (<[["dog"; "out"; "tmp"] := FS.Dir]> Scenario.disk))
  = (Ok tt,
     <[["image_0.jpg"; "dog"; "out"; "tmp"] := FS.File (FS.Bytes "abcd")]>
       (<[["dog"; "out"; "tmp"] := FS.Dir]> Scenario.disk),
     [Get "urlA"]).
Proof.
  apply (task_repeated Scenario.world "urlA" "jpg" "dog" 0 (Some "/tmp/out")
           None Scenario.disk).
  reflexivity.
Defined.

(** ** More on the CSV file *)

Section MoreCsv.

(** [open] refuses a path that is a directory or whose parent is not
    one. *)
Lemma open_w_refused (fs : FS.t) (p : Path.t) (c : FS.content) :
  fs !! p = Some FS.Dir \/ FS.is_dir fs (Path.parent p) = false ->
  exists e, FS.open_w fs p c = Raise e.
Proof.
  destruct p as [|x parent]; simpl; [by eexists|].
  unfold FS.is_dir. intros H.
  destruct (FS.node_at fs parent) as [[]|]; try by eexists.
  destruct H as [-> | H]; [by eexists|done].
Qed.

(** X11: [save_urls_csv] prints nothing, asks for nothing and touches
    no path but [output_dir / name_urls.csv], joined as [pathlib] joins
    them. When the directory does not exist it returns normally and has
    done nothing at all: the missing directory goes unnoticed. When the
    path of the file is a directory, or when [output_dir] exists but
    the file's parent is not a directory, [open] raises an [OSError]
    and the disk is as before. The paths are plain. *)
Theorem save_urls_csv_one_file (data : list (string * string)) (d name : string)
    (fs : FS.t) (r : result unit) (fs' : FS.t) (t : list event) :
  Path.plain (Path.of_string d) = true ->
  Path.plain (Path.of_string d // (name +:+ "_urls.csv")) = true ->
  save_urls_csv data (Some d) name fs = (r, fs', t) ->
  t = []
  /\ (forall q, q <> Path.of_string d // (name +:+ "_urls.csv") ->
                fs' !! q = fs !! q)
  /\ (FS.exists_ fs (Path.of_string d) = false -> r = Ok tt /\ fs' = fs)
  /\ (FS.exists_ fs (Path.of_string d) = true ->
      fs !! (Path.of_string d // (name +:+ "_urls.csv")) = Some FS.Dir
      \/ FS.is_dir fs (Path.parent (Path.of_string d // (name +:+ "_urls.csv")))
         = false ->
      exists e, r = Raise e /\ is_IOError e = true /\ fs' = fs).
Proof.
  intros _ _. rewrite save_urls_csv_run.
  destruct (FS.exists_ fs (Path.of_string d)) eqn:Hex.
  - destruct (FS.open_w fs _ _) as [fs1|e] eqn:Hopen.
    + pose proof Hopen as Hopen'. apply open_w_Ok in Hopen' as (_ & _ & ->).
      unfold FS.close_w. rewrite insert_insert_eq.
      intros [= <- <- <-]. split; [done|]. split; [|split; [done|]].
      * intros q Hq. by rewrite lookup_insert_ne.
      * intros _ Hbad.
        destruct (open_w_refused fs _ (FS.Rows []) Hbad) as [e He]. congruence.
    + intros [= <- <- <-]. split; [done|]. split; [done|]. split; [done|].
      intros _ _. exists e. split; [done|]. split; [|done].
      by eapply open_w_Raise_IOError.
  - intros [= <- <- <-]. done.
Qed.

(** X12: the file is replaced, not appended to. When two saves under
    the same name return normally one after the other, the file holds
    after each the header and that list's rows, one per record and in
    order; after the second nothing of the first is left, no other path
    has changed, and the disk is the one the second save alone would
    have left. The paths are plain. *)
Theorem save_urls_csv_last_wins (data data2 : list (string * string))
    (d name : string) (fs fs1 fs2 : FS.t) (t1 t2 : list event) :
  Path.plain (Path.of_string d) = true ->
  Path.plain (Path.of_string d // (name +:+ "_urls.csv")) = true ->
  FS.exists_ fs (Path.of_string d) = true ->
  save_urls_csv data (Some d) name fs = (Ok tt, fs1, t1) ->
  save_urls_csv data2 (Some d) name fs1 = (Ok tt, fs2, t2) ->
  fs1 !! (Path.of_string d // (name +:+ "_urls.csv"))
  = Some (FS.File (FS.Rows (["image_url"; "extension"]
                            :: map (fun '(u, x) => [u; x]) data)))
  /\ fs2 !! (Path.of_string d // (name +:+ "_urls.csv"))
     = Some (FS.File (FS.Rows (["image_url"; "extension"]
                               :: map (fun '(u, x) => [u; x]) data2)))
  /\ (forall q, q <> Path.of_string d // (name +:+ "_urls.csv") ->
                fs2 !! q = fs !! q)
  /\ save_urls_csv data2 (Some d) name fs = (Ok tt, fs2, t2).
Proof.
  intros _ _ Hex. rewrite !save_urls_csv_run, Hex.
  destruct (FS.open_w fs _ _) as [fsa|e] eqn:Hopen; [|done].
  pose proof Hopen as Hopen'. apply open_w_Ok in Hopen' as (_ & _ & ->).
  unfold FS.close_w. rewrite insert_insert_eq. intros [= <- <-].
  rewrite exists_insert by done.
  rewrite (open_w_again _ _ _ _ _ _ Hopen), !insert_insert_eq.
  intros [= <- <-].
  split; [apply lookup_insert_eq|]. split; [apply lookup_insert_eq|].
  split; [|done]. intros q Hq. by rewrite lookup_insert_ne.
Qed.

Lemma save_urls_csv_one_file_witness :
  save_urls_csv [("urlA", "jpg")] (Some "/nowhere") "dog" Scenario.disk
  = (Ok tt, Scenario.disk, []).
Proof.
  destruct (save_urls_csv_one_file [("urlA", "jpg")] "/nowhere" "dog"
              Scenario.disk (Ok tt) Scenario.disk [])
    as (_ & _ & Hmissing & _); [reflexivity..|].
  by destruct Hmissing as [_ _].
Defined.

Lemma save_urls_csv_last_wins_witness :
  (<[["dog_urls.csv"; "out"; "tmp"]
     := FS.File (FS.Rows [["image_url"; "extension"]])]> Scenario.disk)
    !! ["dog_urls.csv"; "out"; "tmp"]
  = Some (FS.File (FS.Rows [["image_url"; "extension"]]))
  /\ save_urls_csv [] (Some "/tmp/out") "dog" Scenario.disk
     = (Ok tt,
        <[["dog_urls.csv"; "out"; "tmp"]
          := FS.File (FS.Rows [["image_url"; "extension"]])]> Scenario.disk,
        []).
Proof.
  destruct (save_urls_csv_last_wins [("urlA", "jpg")] [] "/tmp/out" "dog"
              Scenario.disk
              (<[["dog_urls.csv"; "out"; "tmp"]
                 := FS.File (FS.Rows [["image_url"; "extension"];
                                      ["urlA"; "jpg"]])]> Scenario.disk)
              (<[["dog_urls.csv"; "out"; "tmp"]
                 := FS.File (FS.Rows [["image_url"; "extension"]])]>
                 Scenario.disk) [] [])
    as (_ & Hsecond & _ & Hdirect); [reflexivity..|].
  split; [exact Hsecond|exact Hdirect].
Defined.

End MoreCsv.

(** ** More on queries and the script *)

Section MoreScript.

Variable E : env.

Lemma fair_nil {A : Type} : fair E -> order E A [] = [].
Proof. intros H. apply Permutation_nil_r. by rewrite (H A []). Qed.

(** X13: a query whose page has no record makes no folder and no file:
    without a CSV flag the disk is as before and the search page is
    all that was asked for; with [--urls_to_csv] into an existing
    directory the CSV holds the header alone. *)
Theorem query_without_records (q : pyquery) (output_dir folder_name : option string)
    (fs : FS.t) :
  fair E ->
  search E (search_url q) = PageOk [] ->
  download_images_single_query_async E q output_dir folder_name false false fs
  = (Ok tt, fs, [Get (search_url q)])
  /\ (forall d,
        output_dir = Some d ->
        FS.is_dir fs (Path.of_string d) = true ->
        PyStr.contains "/" (default_query_name (plus_query q)) = false ->
        fs !! (csv_name q :: Path.of_string d) <> Some FS.Dir ->
        download_images_single_query_async E q output_dir folder_name false true fs
        = (Ok tt,
           <[csv_name q :: Path.of_string d
             := FS.File (FS.Rows [["image_url"; "extension"]])]> fs,
           [Get (search_url q)])).
Proof.
  intros Hfair Hpage.
  assert (fetch_image_urls E (search_url q) (plus_query q) fs
          = (Ok [], fs, [Get (search_url q)])) as Hfetch.
  { by rewrite fetch_run, Hpage. }
  split.
  - rewrite single_query_run, Hfetch. cbn [negb orb].
    unfold pool, enumerate. cbn [length seq zip zip_with].
    by rewrite (fair_nil Hfair).
  - intros d -> Hd Hname Hfree.
    rewrite single_query_run, Hfetch. cbn [negb orb].
    unfold pool, enumerate. cbn [length seq zip zip_with].
    rewrite (fair_nil Hfair). cbn [run_each ret].
    rewrite save_urls_csv_run, (is_dir_exists _ _ Hd).
    assert (Path.of_string d // (default_query_name (plus_query q) +:+ "_urls.csv")
            = csv_name q :: Path.of_string d) as ->.
    { by apply join_csv_name. }
    rewrite open_w_in_dir by done.
    unfold FS.close_w. by rewrite insert_insert_eq.
Qed.

Lemma get_user_input_accepts (argv : inputs) (fs : FS.t) :
  (output_dir argv = None
   \/ exists d, output_dir argv = Some d /\ FS.is_dir fs (Path.of_string d) = true) ->
  get_user_input argv fs = (Ok argv, fs, []).
Proof.
  unfold get_user_input, path_dir, bind, get_fs, ret.
  intros [->|(d & -> & ->)]; done.
Qed.

Lemma main_run (argv : inputs) (fs : FS.t) :
  get_user_input argv fs = (Ok argv, fs, []) ->
  main E argv fs =
  match (match query argv with
         | Some ((_ :: _) as q) =>
             download_images_single_query_async E (QList q) (output_dir argv)
               (folder_name argv) (just_csv_no_download argv) (urls_to_csv argv) fs
         | _ => (Ok tt, fs, [])
         end) with
  | (Raise e, fs1, t1) => (Raise e, fs1, t1)
  | (Ok _, fs1, t1) =>
      match list_queries argv with
      | Some ((_ :: _) as lq) =>
          match download_list_queries E (map join_words lq) (output_dir argv)
                  (folder_name argv) (just_csv_no_download argv)
                  (urls_to_csv argv) fs1 with
          | (r, fs2, t2) => (r, fs2, t1 ++ Print (ListQueries lq) :: t2)
          end
      | _ => (Ok tt, fs1, t1 ++ [])
      end
  end.
Proof.
  intros Hin. unfold main. unfold bind at 1. rewrite Hin. simpl app.
  unfold bind at 1.
  destruct (query argv) as [[|w ws]|].
  - unfold ret at 1. destruct (list_queries argv) as [[|l lq]|]; try done.
    unfold bind, print.
    by destruct (download_list_queries E _ _ _ _ _ fs) as [[r fs2] t2].
  - destruct (download_images_single_query_async E _ _ _ _ _ fs)
      as [[[[]|e] fs1] t1]; [|done].
    destruct (list_queries argv) as [[|l lq]|]; try done.
    unfold bind, print.
    by destruct (download_list_queries E _ _ _ _ _ fs1) as [[r fs2] t2].
  - unfold ret at 1. destruct (list_queries argv) as [[|l lq]|]; try done.
    unfold bind, print.
    by destruct (download_list_queries E _ _ _ _ _ fs) as [[r fs2] t2].
Qed.

(** X14: on the [--query] path a failed extraction ends the whole run:
    the script raises what the extraction raised, and a list of queries
    given on the same command line is never started, not even
    printed. *)
Theorem query_failure_is_fatal (argv : inputs) (w : string) (ws : list string)
    (fs : FS.t) (e : exn) (fs1 : FS.t) (t1 : list event) :
  get_user_input argv fs = (Ok argv, fs, []) ->
  query argv = Some (w :: ws) ->
  fetch_image_urls E (search_url (QList (w :: ws))) (plus_query (QList (w :: ws))) fs
  = (Raise e, fs1, t1) ->
  main E argv fs = (Raise e, fs, t1)
  /\ requests t1 = [search_url (QList (w :: ws))]
  /\ forall lq, Print (ListQueries lq) ∉ t1.
Proof.
  intros Hin Hq Hfetch. rewrite (main_run _ _ Hin), Hq.
  rewrite (single_query_failed E _ _ _ _ _ _ _ _ _ Hfetch).
  split; [done|].
  destruct (fetch_inv _ _ _ _ _ _ _ Hfetch) as (_ & Hreq & _).
  split; [done|]. intros lq Hin'.
  rewrite fetch_run in Hfetch. revert Hfetch Hin'.
  destruct (search E _) as [e0|divs].
  - destruct (is_Timeout e0).
    { intros [= <- <- <-] Hin'.
      repeat (apply elem_of_cons in Hin' as [[=]|Hin']).
      by apply elem_of_nil in Hin'. }
    destruct (is_HTTPError e0); intros [= <- <- <-] Hin';
      repeat (apply elem_of_cons in Hin' as [[=]|Hin']);
      by apply elem_of_nil in Hin'.
  - destruct (parse_results divs []); [done|].
    intros [= <- <- <-] Hin'.
    repeat (apply elem_of_cons in Hin' as [[=]|Hin']).
    by apply elem_of_nil in Hin'.
Qed.

(** X15: without [--query] the script ends normally once the output
    directory is accepted, whatever the queries of the list meet; the
    list is printed before anything is asked for, and with no list the
    script does nothing. *)
Theorem list_run_ends_normally (argv : inputs) (fs : FS.t) :
  get_user_input argv fs = (Ok argv, fs, []) ->
  (query argv = None \/ query argv = Some []) ->
  (exists fs' t, main E argv fs = (Ok tt, fs', t))
  /\ (forall l lq, list_queries argv = Some (l :: lq) ->
        exists fs' t,
          main E argv fs = (Ok tt, fs', Print (ListQueries (l :: lq)) :: t))
  /\ (list_queries argv = None \/ list_queries argv = Some [] ->
      main E argv fs = (Ok tt, fs, [])).
Proof.
  intros Hin Hq. rewrite (main_run _ _ Hin).
  assert (match query argv with
          | Some ((_ :: _) as q) =>
              download_images_single_query_async E (QList q) (output_dir argv)
                (folder_name argv) (just_csv_no_download argv)
                (urls_to_csv argv) fs
          | _ => (Ok tt, fs, [])
          end = (Ok tt, fs, [])) as ->.
  { by destruct Hq as [-> | ->]. }
  split; [|split].
  - destruct (list_queries argv) as [[|l lq]|]; [by eexists _, _| |by eexists _, _].
    destruct (download_list_queries_total E (map join_words (l :: lq))
                (output_dir argv) (folder_name argv)
                (just_csv_no_download argv) (urls_to_csv argv) fs)
      as (fs' & t & ->).
    by eexists _, _.
  - intros l lq ->.
    destruct (download_list_queries_total E (map join_words (l :: lq))
                (output_dir argv) (folder_name argv)
                (just_csv_no_download argv) (urls_to_csv argv) fs)
      as (fs' & t & ->).
    by eexists _, _.
  - by intros [-> | ->].
Qed.

End MoreScript.

Lemma query_without_records_witness :
  download_images_single_query_async Scenario2.world (QStr "fish")
    (Some "/tmp/out") None false false Scenario2.disk
  = (Ok tt, Scenario2.disk, [Get (search_url (QStr "fish"))]).
Proof.
  destruct (query_without_records Scenario2.world (QStr "fish")
              (Some "/tmp/out") None Scenario2.disk) as [H _].
  - intros A l. simpl. symmetry. apply Permutation_rev.
  - reflexivity.
  - exact H.
Defined.

Lemma query_failure_is_fatal_witness :
  main Scenario.world
    (Build_inputs (Some ["bird"]) 100 (Some [["dog"]]) (Some "/tmp/out") None
       false false)
    Scenario.disk
  = (Raise UnboundLocalError, Scenario.disk,
     [Get (search_url (QList ["bird"])); Print (SearchTimedOut ReadTimeout)]).
Proof.
  apply (query_failure_is_fatal Scenario.world _ "bird" [] Scenario.disk
           UnboundLocalError Scenario.disk); reflexivity.
Defined.

Lemma list_run_ends_normally_witness :
  exists fs' t, main Scenario.world Scenario.argv Scenario.disk = (Ok tt, fs', t).
Proof.
  apply (list_run_ends_normally Scenario.world Scenario.argv Scenario.disk).
  - reflexivity.
  - by left.
Defined.

(** ** More on placement *)

Section MorePlacement.

(** X16: [create_folder] never removes or changes what is on the disk:
    every entry stays as it was, and what is new is a directory on the
    way down to the folder. It prints nothing; when it raises or finds
    no base directory the disk is untouched, and the path it returns is
    the folder, which then is a directory. The folder is
    [output_dir / folder_name] as [pathlib] joins them: below the base
    for a relative name, where the name says for an absolute one. The
    base and the folder are plain. *)
Theorem create_folder_only_adds (output_dir : Path.t) (folder_name : string)
    (fs : FS.t) (r : result (option Path.t)) (fs1 : FS.t) (t : list event) :
  Path.plain output_dir = true ->
  Path.plain (output_dir // folder_name) = true ->
  create_folder output_dir folder_name fs = (r, fs1, t) ->
  t = []
  /\ (forall q x, fs !! q = Some x -> fs1 !! q = Some x)
  /\ (forall q x, fs1 !! q = Some x ->
        fs !! q = Some x
        \/ (x = FS.Dir /\ q `suffix_of` output_dir // folder_name))
  /\ (forall p, r = Ok (Some p) ->
        p = output_dir // folder_name /\ FS.is_dir fs1 p = true)
  /\ (r = Ok None \/ (exists e, r = Raise e) -> fs1 = fs).
Proof.
  intros _ _. rewrite create_folder_run.
  destruct (FS.exists_ fs output_dir).
  - destruct (FS.mkdir_parents fs _) as [fs'|e] eqn:Hmk.
    + destruct (mkdir_parents_post _ _ _ Hmk) as (Hd & Hnew & _).
      intros [= <- <- <-]. split; [done|]. split; [|split; [|split]].
      * intros q x Hq. destruct (Hnew q) as [->|(Hn & _)]; congruence.
      * intros q x Hq. destruct (Hnew q) as [<-|(_ & Hq' & Hs)]; [by left|].
        right. split; [congruence|done].
      * by intros p [= <-].
      * by intros [[=]|[e [=]]].
    + intros [= <- <- <-]. split; [done|]. split; [done|].
      split; [by left|]. split; [by intros p [=]|done].
  - intros [= <- <- <-]. split; [done|]. split; [done|].
    split; [by left|]. split; [by intros p [=]|done].
Qed.

Lemma below_file_absent (fs : FS.t) (base : Path.t) (c : FS.content) :
  wf fs -> FS.node_at fs base = Some (FS.File c) ->
  forall comps, comps <> [] -> fs !! (comps ++ base) = None.
Proof.
  intros Hwf Hbase. induction comps as [|k rest IH]; [done|]. intros _.
  destruct (fs !! ((k :: rest) ++ base)) as [x|] eqn:Hx; [|done].
  simpl in Hx. apply Hwf, is_dir_true in Hx.
  destruct rest as [|k' rest]; simpl in Hx; [congruence|].
  specialize (IH ltac:(done)). simpl in IH. congruence.
Qed.

Lemma mkdir_below_file (fs : FS.t) (base : Path.t) (c : FS.content) :
  wf fs -> FS.node_at fs base = Some (FS.File c) ->
  forall comps, comps <> [] ->
    FS.mkdir_parents fs (comps ++ base) = Raise NotADirectoryError.
Proof.
  intros Hwf Hbase. induction comps as [|k rest IH]; [done|]. intros _.
  rewrite mkdir_parents_unfold. simpl app. cbn [FS.os_mkdir].
  assert (FS.is_dir fs (k :: rest ++ base) = false) as Hnd.
  { pose proof (below_file_absent fs base c Hwf Hbase (k :: rest)
                  ltac:(done)) as Habs.
    unfold FS.is_dir. simpl in *. by rewrite Habs. }
  destruct rest as [|k' rest].
  - simpl app in *. rewrite Hbase. case_decide; [done|]. by rewrite Hnd.
  - assert (FS.node_at fs ((k' :: rest) ++ base) = None) as ->.
    { simpl. by apply (below_file_absent fs base c Hwf Hbase (k' :: rest)). }
    case_decide; [|done]. by rewrite IH.
Qed.

(** X17: the resolver asks whether the base exists, not whether it is a
    directory. When the base is a regular file and the folder name is
    relative, every task whose request succeeded ends in a
    [NotADirectoryError] from the making of the folder: it passes the
    [except IOError] clause, which guards the writing only, nothing is
    printed and the disk is as before. With an absolute folder name the
    base is no obstacle: the folder is made where the name says and the
    image is written there. As [--output_dir] such a base is refused at
    the start. The paths are plain. *)
Theorem base_is_a_file (E : env) (url ext query : string) (idx : nat)
    (output_dir folder_name : option string) (fs : FS.t) (c : FS.content)
    (raw : stream) :
  wf fs ->
  Path.plain (base_dir E output_dir) = true ->
  Path.plain (base_dir E output_dir // folder_of query folder_name) = true ->
  FS.node_at fs (base_dir E output_dir) = Some (FS.File c) ->
  image E url = ImageOk raw ->
  (Path.is_absolute (folder_of query folder_name) = false ->
   Path.of_string (folder_of query folder_name) <> [] ->
   create_folder (base_dir E output_dir) (folder_of query folder_name) fs
   = (Raise NotADirectoryError, fs, [])
   /\ download_image_from_url E (url, ext) query idx output_dir folder_name fs
      = (Raise NotADirectoryError, fs, [Get url]))
  /\ (Path.is_absolute (folder_of query folder_name) = true ->
      forall fs1,
        FS.mkdir_parents fs (Path.of_string (folder_of query folder_name)) = Ok fs1 ->
        PyStr.contains "/" ext = false ->
        Path.plain (image_filename idx ext
                    :: Path.of_string (folder_of query folder_name)) = true ->
        fs !! (image_filename idx ext
               :: Path.of_string (folder_of query folder_name)) <> Some FS.Dir ->
        exists r t,
          download_image_from_url E (url, ext) query idx output_dir folder_name fs
          = (r,
             <[image_filename idx ext :: Path.of_string (folder_of query folder_name)
               := FS.File (FS.Bytes (String.concat "" (chunks raw)))]> fs1,
             t))
  /\ is_IOError NotADirectoryError = true
  /\ forall d, output_dir = Some d ->
       path_dir d fs = (Raise NotADirectoryError, fs, []).
Proof.
  intros Hwf _ _ Hbase Himg.
  assert (FS.exists_ fs (base_dir E output_dir) = true) as Hex.
  { unfold FS.exists_. by rewrite Hbase. }
  split; [|split; [|split; [done|]]].
  - intros Hrel Hfolder.
    assert (FS.mkdir_parents fs
              (base_dir E output_dir // folder_of query folder_name)
            = Raise NotADirectoryError) as Hmk.
    { rewrite join_relative by done. by eapply mkdir_below_file. }
    split; [by rewrite create_folder_run, Hex, Hmk|].
    rewrite download_run. cbv zeta. by rewrite Himg, Hex, Hmk.
  - intros Habs fs1 Hmk Hext _ Hfree.
    destruct (task_writes E url ext query idx output_dir folder_name fs fs1 raw)
      as (r & t & Hrun & _); try done.
    + by rewrite join_absolute.
    + rewrite destination_single, join_absolute by done. exact Hfree.
    + rewrite destination_single, join_absolute in Hrun by done.
      by exists r, t.
  - intros d ->. unfold path_dir, bind, get_fs, raise, ret.
    unfold FS.is_dir. simpl in Hbase. by rewrite Hbase.
Qed.

Lemma wf_insert_file_in_dir (fs : FS.t) (k : string) (p : Path.t) (c : FS.content) :
  wf fs -> FS.is_dir fs p = true -> fs !! (k :: p) = None ->
  wf (<[k :: p := FS.File c]> fs).
Proof.
  intros Hwf Hd Hp q k' x Hq.
  assert (forall q', FS.is_dir fs q' = true ->
                     FS.is_dir (<[k :: p := FS.File c]> fs) q' = true) as Hmono.
  { intros q' Hq'. apply is_dir_true in Hq'. apply is_dir_true.
    destruct q' as [|y q']; [done|]. simpl in *.
    rewrite lookup_insert_ne; [done|]. intros Heq. rewrite Heq in Hp.
    congruence. }
  apply Hmono.
  destruct (decide (k :: p = k' :: q)) as [[= <- <-]|Hne]; [done|].
  rewrite lookup_insert_ne in Hq by done. by eapply Hwf.
Qed.

End MorePlacement.

Lemma create_folder_only_adds_witness :
  (<[["elsewhere"; "tmp"] := FS.Dir]> Scenario.disk) !! ["out"; "tmp"]
  = Some FS.Dir
  /\ FS.is_dir (<[["elsewhere"; "tmp"] := FS.Dir]> Scenario.disk)
       ["elsewhere"; "tmp"] = true.
Proof.
  destruct (create_folder_only_adds ["out"; "tmp"] "/tmp/elsewhere" Scenario.disk
              (Ok (Some ["elsewhere"; "tmp"]))
              (<[["elsewhere"; "tmp"] := FS.Dir]> Scenario.disk) [])
    as (_ & Hkept & _ & Hpath & _); [reflexivity..|].
  split; [by apply Hkept|]. by destruct (Hpath _ eq_refl).
Defined.

Lemma wf_scenario2_disk : wf Scenario2.disk.
Proof.
  unfold Scenario2.disk.
  apply (wf_insert_file_in_dir _ "report" ["tmp"]); [|by vm_compute|by vm_compute].
  apply wf_insert_dir; [|by vm_compute|by vm_compute].
  apply wf_insert_dir; [apply wf_empty|by vm_compute|by vm_compute].
Qed.

Lemma base_is_a_file_witness :
  download_image_from_url Scenario2.world ("urlD", "jpg") "dog" 0
    (Some "/tmp/report") None Scenario2.disk
  = (Raise NotADirectoryError, Scenario2.disk, [Get "urlD"])
  /\ exists r t,
       download_image_from_url Scenario2.world ("urlD", "jpg") "dog" 0
         (Some "/tmp/report") (Some "/tmp/elsewhere") Scenario2.disk
       = (r,
          <[["image_0.jpg"; "elsewhere"; "tmp"] := FS.File (FS.Bytes "xyz")]>
            (<[["elsewhere"; "tmp"] := FS.Dir]> Scenario2.disk),
          t).
Proof.
  split.
  - destruct (base_is_a_file Scenario2.world "urlD" "jpg" "dog" 0
                (Some "/tmp/report") None Scenario2.disk (FS.Bytes "old")
                {| chunks := ["xy"; "z"]; broken := None |})
      as (Hrel & _).
    + exact wf_scenario2_disk.
    + reflexivity.
    + reflexivity.
    + reflexivity.
    + reflexivity.
    + by destruct Hrel as [_ Htask]; [reflexivity|by vm_compute|].
  - destruct (base_is_a_file Scenario2.world "urlD" "jpg" "dog" 0
                (Some "/tmp/report") (Some "/tmp/elsewhere") Scenario2.disk
                (FS.Bytes "old")
                {| chunks := ["xy"; "z"]; broken := None |})
      as (_ & Habs & _).
    + exact wf_scenario2_disk.
    + reflexivity.
    + reflexivity.
    + reflexivity.
    + reflexivity.
    + apply (Habs eq_refl (<[["elsewhere"; "tmp"] := FS.Dir]> Scenario2.disk));
        [reflexivity|reflexivity|reflexivity|by vm_compute].
Defined.

(** ** More on batches and pools *)

Lemma two_occurrences {A} (l : list A) (i j : nat) (x : A) :
  i <> j -> l !! i = Some x -> l !! j = Some x ->
  exists rest, l ≡ₚ x :: x :: rest.
Proof.
  intros Hij Hi Hj.
  pose proof (delete_Permutation l i x Hi) as Hperm.
  assert (exists k, delete i l !! k = Some x) as [k Hk].
  { destruct (decide (j < i)) as [Hlt|Hge].
    - exists j. by rewrite list_lookup_delete_lt.
    - destruct j as [|j]; [lia|]. exists j.
      rewrite list_lookup_delete_ge by lia. done. }
  exists (delete k (delete i l)).
  by rewrite Hperm at 1; rewrite (delete_Permutation _ k x Hk) at 1.
Qed.

(** X18: records are told apart by their place in the page, not by
    their location: two records with the same location and hint are two
    downloads, the location is asked for once per record, and they end
    as two files, under the two indices, each with the bytes of the
    reply to that location (which the network of the model gives the
    same way each time it is asked). The paths of the batch are plain
    ([plain_batch]). *)
Theorem same_location_twice (E : env) (images : list (string * string))
    (query : string) (output_dir folder_name : option string) (fs : FS.t)
    (i j : nat) (url ext : string) (raw : stream) :
  fair E ->
  plain_batch E images query output_dir folder_name ->
  ready (base_dir E output_dir)
    (base_dir E output_dir // folder_of query folder_name) fs ->
  i <> j ->
  images !! i = Some (url, ext) ->
  images !! j = Some (url, ext) ->
  image E url = ImageOk raw ->
  PyStr.contains "/" ext = false ->
  fs !! destination E query i ext output_dir folder_name <> Some FS.Dir ->
  fs !! destination E query j ext output_dir folder_name <> Some FS.Dir ->
  exists futures fs' t,
    pool E inner_max_workers
      (fun '(idx, image) =>
         download_image_from_url E image query idx output_dir folder_name)
      (enumerate images) fs
    = (Ok futures, fs', t)
    /\ (exists rest, requests t ≡ₚ url :: url :: rest)
    /\ destination E query i ext output_dir folder_name
       <> destination E query j ext output_dir folder_name
    /\ fs' !! destination E query i ext output_dir folder_name
       = Some (FS.File (FS.Bytes (String.concat "" (chunks raw))))
    /\ fs' !! destination E query j ext output_dir folder_name
       = Some (FS.File (FS.Bytes (String.concat "" (chunks raw)))).
Proof.
  intros Hfair _ Hready Hij Hi Hj Himg Hext Hfi Hfj.
  destruct (batch_outcome E images query output_dir folder_name fs Hfair)
    as (futures & fs' & t & Hrun & _ & Hreq & Hfiles & _).
  exists futures, fs', t. split; [exact Hrun|]. split; [|split].
  - destruct (two_occurrences images.*1 i j url Hij) as [rest Hrest].
    + by rewrite list_lookup_fmap, Hi.
    + by rewrite list_lookup_fmap, Hj.
    + exists rest. by rewrite Hreq.
  - intros Heq. apply Hij. by eapply destination_inj.
  - split; by eapply (Hfiles Hready).
Qed.

Lemma same_location_twice_witness :
  exists futures fs' t,
    pool Scenario2.world inner_max_workers
      (fun '(idx, image) =>
         download_image_from_url Scenario2.world image "dog" idx
           (Some "/tmp/out") None)
      (enumerate [("urlD", "jpg"); ("urlD", "jpg")]) Scenario2.disk
    = (Ok futures, fs', t)
    /\ fs' !! ["image_0.jpg"; "dog"; "out"; "tmp"]
       = Some (FS.File (FS.Bytes "xyz"))
    /\ fs' !! ["image_1.jpg"; "dog"; "out"; "tmp"]
       = Some (FS.File (FS.Bytes "xyz")).
Proof.
  destruct (same_location_twice Scenario2.world [("urlD", "jpg"); ("urlD", "jpg")]
              "dog" (Some "/tmp/out") None Scenario2.disk 0 1 "urlD" "jpg"
              {| chunks := ["xy"; "z"]; broken := None |})
    as (futures & fs' & t & Hrun & _ & _ & H0 & H1).
  - intros A l. simpl. symmetry. apply Permutation_rev.
  - split; [reflexivity|]. split; [reflexivity|].
    intros [|[|k]] u x; intros [= <- <-]; reflexivity.
  - split; [reflexivity|eexists; reflexivity].
  - lia.
  - reflexivity.
  - reflexivity.
  - reflexivity.
  - reflexivity.
  - by vm_compute.
  - by vm_compute.
  - by exists futures, fs', t.
Defined.

Section MorePool.

Context {T : Type}.






End MorePool.

